(** * jill: mirror resolution and availability probing (jill/source.py)

    A shallow embedding of [jill/source.py]: the [ReleaseSource] class (one
    mirror with its lazily measured latencies), the [SourceRegistry] class
    (all mirrors, the merged latency view and the ranked candidate list) and
    the module functions [is_url_available] and [query_download_url].

    Python objects are records, the mutable [_latencies] attribute is threaded
    explicitly with [self], Python dictionaries are insertion-ordered
    association lists, exceptions are values of [exn], and every call that
    leaves the module for the network ([query_ip], [port_response_time],
    [requests.head]) is answered by an oracle that sees the calls made so far
    and is appended to that record of calls. *)

From Stdlib Require Import String Ascii List ZArith QArith Bool Lia.
From Stdlib Require Import Sorted Permutation.
Import ListNotations.

Close Scope Q_scope.
Open Scope string_scope.
Open Scope list_scope.

(** ** Python dictionaries

    A [dict] keeps its keys in insertion order; assigning to a key that is
    already there keeps the key's position and replaces its value. *)

Module Dict.

Definition t (V : Type) : Type := list (string * V).

Definition empty {V : Type} : t V := [].

(** [not d] *)
Definition is_empty {V : Type} (d : t V) : bool :=
  match d with
  | [] => true
  | _ :: _ => false
  end.

(** [d.get(k)] *)
Fixpoint get {V : Type} (k : string) (d : t V) : option V :=
  match d with
  | [] => None
  | (k', v) :: d' => if String.eqb k k' then Some v else get k d'
  end.

(** [d[k] = v] *)
Fixpoint setitem {V : Type} (k : string) (v : V) (d : t V) : t V :=
  match d with
  | [] => [(k, v)]
  | (k', v') :: d' =>
      if String.eqb k k' then (k', v) :: d' else (k', v') :: setitem k v d'
  end.

(** [d.update(other)] *)
Definition update {V : Type} (d other : t V) : t V :=
  fold_left (fun acc kv => setitem (fst kv) (snd kv) acc) other d.

(** [d.keys()], [d.values()], [d.items()] *)
Definition keys {V : Type} (d : t V) : list string := map fst d.
Definition values {V : Type} (d : t V) : list V := map snd d.
Definition items {V : Type} (d : t V) : list (string * V) := d.

End Dict.

(** ** Exceptions and the state-and-exception monad *)

Inductive exn : Type :=
| KeyError (key : string)
| IndexError
| ValueError
| RecursionError.

Inductive result (A : Type) : Type :=
| Ok (a : A)
| Raise (e : exn).

Arguments Ok {A} a.
Arguments Raise {A} e.

(** A computation over a state [S]: it returns or raises, and the state it
    has reached is kept in both cases (Python does not roll an assignment
    back when a later statement raises). *)
Definition M (S A : Type) : Type := S -> result A * S.

Definition ret {S A : Type} (a : A) : M S A := fun s => (Ok a, s).

Definition raise {S A : Type} (e : exn) : M S A := fun s => (Raise e, s).

Definition bind {S A B : Type} (m : M S A) (k : A -> M S B) : M S B :=
  fun s =>
    match m s with
    | (Ok a, s') => k a s'
    | (Raise e, s') => (Raise e, s')
    end.

Declare Scope py_scope.
Delimit Scope py_scope with py.
Notation "x <- m ;; k" := (bind m (fun x => k))
  (at level 100, m at next level, right associativity) : py_scope.
Notation "m ;;; k" := (bind m (fun _ => k))
  (at level 100, right associativity) : py_scope.
Open Scope py_scope.

(** A computation on the second component of a pair of states. *)
Definition on_snd {S1 S2 A : Type} (m : M S2 A) : M (S1 * S2) A :=
  fun s => let (r, s2) := m (snd s) in (r, (fst s, s2)).

(** A computation on the first component of a pair of states. *)
Definition on_fst {S1 S2 A : Type} (m : M S1 A) : M (S1 * S2) A :=
  fun s => let (r, s1) := m (fst s) in (r, (s1, snd s)).

(** [d[k]]: a missing key raises [KeyError]. *)
Definition getitem {S V : Type} (d : Dict.t V) (k : string) : M S V :=
  match Dict.get k d with
  | Some v => ret v
  | None => raise (KeyError k)
  end.

(** [[f(x) for x in xs]] *)
Fixpoint list_comprehension {S X A : Type} (f : X -> M S A) (xs : list X)
  : M S (list A) :=
  match xs with
  | [] => ret []
  | x :: xs' =>
      a <- f x ;;
      rest <- list_comprehension f xs' ;;
      ret (a :: rest)
  end.

(** [{key(x): value(x) for x in xs}], built on top of [acc]. *)
Fixpoint dict_comprehension_from {S X V : Type}
    (entry : X -> M S (string * V)) (xs : list X) (acc : Dict.t V)
  : M S (Dict.t V) :=
  match xs with
  | [] => ret acc
  | x :: xs' =>
      kv <- entry x ;;
      dict_comprehension_from entry xs' (Dict.setitem (fst kv) (snd kv) acc)
  end.

Definition dict_comprehension {S X V : Type}
    (entry : X -> M S (string * V)) (xs : list X) : M S (Dict.t V) :=
  dict_comprehension_from entry xs Dict.empty.

(** ** Sorting with a key

    [list.sort(key=...)] computes the key of every element once, in list
    order, then sorts the elements by their keys with [<] alone; the sort is
    stable.  Insertion from the right that stops at the first element not
    strictly below the inserted one is such a stable sort. *)

Section SortByKey.
Context {K A : Type}.
Variable lt : K -> K -> bool.

Fixpoint insert_keyed (x : K * A) (l : list (K * A)) : list (K * A) :=
  match l with
  | [] => [x]
  | y :: l' =>
      if lt (fst y) (fst x) then y :: insert_keyed x l' else x :: y :: l'
  end.

Fixpoint sort_keyed (l : list (K * A)) : list (K * A) :=
  match l with
  | [] => []
  | x :: l' => insert_keyed x (sort_keyed l')
  end.

Definition list_sort {S : Type} (key : A -> M S K) (l : list A)
  : M S (list A) :=
  keys <- list_comprehension key l ;;
  ret (map snd (sort_keyed (combine keys l))).

End SortByKey.

(** [for x in xs: acc = body(acc, x)] *)
Fixpoint for_each {S X A : Type} (body : A -> X -> M S A) (xs : list X)
    (acc : A) : M S A :=
  match xs with
  | [] => ret acc
  | x :: xs' =>
      acc' <- body acc x ;;
      for_each body xs' acc'
  end.

(** [for x in xs: if test(x): return x] followed by [return None]. *)
Fixpoint first_such_that {S X : Type} (test : X -> M S bool) (xs : list X)
  : M S (option X) :=
  match xs with
  | [] => ret None
  | x :: xs' =>
      b <- test x ;;
      if b then ret (Some x) else first_such_that test xs'
  end.

(** [itertools.repeat(x, times)]: no element when [times] is negative. *)
Definition repeat {A : Type} (x : A) (times : Z) : list A :=
  List.repeat x (Z.to_nat times).

(** [itertools.chain.from_iterable] *)
Definition chain_from_iterable {A : Type} (ls : list (list A)) : list A :=
  concat ls.

(** ** The collaborators outside [source.py] *)

(** Modelled from the spec: the value returned by the latency primitive
    [port_response_time] of [net_utils], which is not among the sources:
    an elapsed time, or the failure sentinel that counts as an infinite
    latency when ranking. *)
Inductive latency : Type :=
| Elapsed (seconds : Q)
| Unreachable.

(** [a < b] on latencies, the comparison the sorts use. *)
Definition latency_lt (a b : latency) : bool :=
  match a, b with
  | Elapsed x, Elapsed y => negb (Qle_bool y x)
  | Elapsed _, Unreachable => true
  | Unreachable, _ => false
  end.

(** [a <= b] on latencies. *)
Definition latency_le (a b : latency) : Prop := latency_lt b a = false.

(** Two keyed elements in the order of their keys. *)
Definition keys_ascend {A : Type} (p q : latency * A) : Prop :=
  latency_le (fst p) (fst q).

(** [string.Template]: the template text is kept as it was given. *)
Record Template : Type := { template : string }.

(** The part of [urllib.parse.urlparse]'s result that the code reads. *)
Record ParseResult : Type := { scheme : string; netloc : string }.

(** The part of [requests.Response] that the code reads.  The header
    mapping of [requests] ignores the case of its keys; here a header is
    kept under its canonical spelling. *)
Record Response : Type := { status_code : Z; headers : Dict.t string }.

(** What [requests.head] does: it answers, or it raises a
    [RequestException]. *)
Inductive head_outcome : Type :=
| Responded (r : Response)
| RequestException.

(** A call that left the module for the network, with its answer. *)
Inductive call : Type :=
| Call_query_ip (host ip : string)
| Call_port_response_time (ip : string) (port : Z) (timeout : Q)
    (answer : latency)
| Call_requests_head (url : string) (timeout : Q) (answer : head_outcome).

(** The calls made so far, the latest first. *)
Definition world : Type := list call.

(** Everything [source.py] imports: the library functions, the table
    [default_scheme_ports] of [defaults], [generate_info] of [filters], the
    network (each answer may depend on the calls made before), and the
    number of stack frames the interpreter still grants to
    [is_url_available] when [query_download_url] calls it. *)
Record externals : Type := {
  urlparse : string -> ParseResult;
  substitute : Template -> Dict.t string -> result string;
  generate_info : string -> string -> string -> Dict.t string;
  default_scheme_ports : Dict.t Z;
  query_ip_answer : world -> string -> string;
  port_response_time_answer : world -> string -> Z -> Q -> latency;
  requests_head_answer : world -> string -> Q -> head_outcome;
  recursion_limit : nat
}.

Section Network.
Variable E : externals.

Definition query_ip (host : string) : M world string :=
  fun w =>
    let ip := query_ip_answer E w host in
    (Ok ip, Call_query_ip host ip :: w).

Definition port_response_time (ip : string) (port : Z) (timeout : Q)
  : M world latency :=
  fun w =>
    let l := port_response_time_answer E w ip port timeout in
    (Ok l, Call_port_response_time ip port timeout l :: w).

Definition requests_head (url : string) (timeout : Q) : M world head_outcome :=
  fun w =>
    let r := requests_head_answer E w url timeout in
    (Ok r, Call_requests_head url timeout r :: w).

End Network.

(** ** class ReleaseSource *)

Module ReleaseSource.

Record t : Type := {
  name : string;
  url_templates : list Template;
  latest_url_templates : list Template;
  timeout : Q;
  _latencies : Dict.t latency
}.

(** [__init__], with the default [timeout=2.0] made explicit by
    [default_timeout]. *)
Definition default_timeout : Q := 2 # 1.

Definition __init__ (name : string) (urls latest_urls : list string)
    (timeout : Q) : t :=
  {| name := name;
     url_templates := map (fun x => {| template := x |}) urls;
     latest_url_templates := map (fun x => {| template := x |}) latest_urls;
     timeout := timeout;
     _latencies := Dict.empty |}.

Definition urls (self : t) : list string :=
  map template (url_templates self).

Definition latest_urls (self : t) : list string :=
  map template (latest_url_templates self).

(** [self] after [self._latencies = d]. *)
Definition with_latencies (self : t) (d : Dict.t latency) : t :=
  {| name := name self;
     url_templates := url_templates self;
     latest_url_templates := latest_url_templates self;
     timeout := timeout self;
     _latencies := d |}.

(** [self._latencies = d] *)
Definition set__latencies (d : Dict.t latency) : M (t * world) unit :=
  fun s => (Ok tt, (with_latencies (fst s) d, snd s)).

(** Reading [self]. *)
Definition get_self : M (t * world) t := fun s => (Ok (fst s), s).

Section Methods.
Variable E : externals.

Definition hosts (self : t) : list string :=
  map (fun url => netloc (urlparse E url)) (urls self).

Definition latest_hosts (self : t) : list string :=
  map (fun url => netloc (urlparse E url)) (latest_urls self).

(** The right-hand side of the assignment to [self._latencies] in the
    [latencies] property: lines 60 to 76, which read [self] and call the
    network. *)
Definition measured_latencies (self : t) : M world (Dict.t latency) :=
  let url_list := urls self ++ latest_urls self in
  let host_list := map (fun url => netloc (urlparse E url)) url_list in
  host_ip_records <-
    dict_comprehension
      (fun host => ip <- query_ip E host ;; ret (host, ip))
      host_list ;;
  ip_port_records <-
    dict_comprehension
      (fun url =>
         ip <- getitem host_ip_records (netloc (urlparse E url)) ;;
         port <- getitem (default_scheme_ports E) (scheme (urlparse E url)) ;;
         ret (ip, port))
      url_list ;;
  latency_records <-
    for_each
      (fun latency_records ip_port =>
         l <- port_response_time E (fst ip_port) (snd ip_port)
                (timeout self) ;;
         ret (Dict.setitem (fst ip_port) l latency_records))
      (Dict.items ip_port_records) Dict.empty ;;
  dict_comprehension
    (fun host =>
       ip <- getitem host_ip_records host ;;
       l <- getitem latency_records ip ;;
       ret (host, l))
    host_list.

(** The [latencies] property. *)
Definition latencies : M (t * world) (Dict.t latency) :=
  self <- get_self ;;
  (if Dict.is_empty (_latencies self)
   then new_latencies <- on_snd (measured_latencies self) ;;
        set__latencies new_latencies
   else ret tt) ;;;
  self <- get_self ;;
  ret (_latencies self).

Definition get_url (plain_version system architecture : string)
  : M (t * world) string :=
  self <- get_self ;;
  let template_lists :=
    if String.eqb plain_version "latest"
    then latest_url_templates self
    else url_templates self in
  let configs := generate_info E plain_version system architecture in
  url_list <-
    list_comprehension
      (fun t => match substitute E t configs with
                | Ok url => ret url
                | Raise e => raise e
                end)
      template_lists ;;
  url_list <-
    list_sort latency_lt
      (fun url =>
         l <- latencies ;;
         getitem l (netloc (urlparse E url)))
      url_list ;;
  match url_list with
  | url :: _ => ret url
  | [] => raise IndexError
  end.

End Methods.

End ReleaseSource.

(** ** class SourceRegistry *)

Module SourceRegistry.

Record t : Type := {
  configfile : string;
  timeout : Q;
  registry : Dict.t ReleaseSource.t
}.

(** [for src in self.registry.values(): acc = body(acc)], where [body] runs
    with [src] as its [self]; what [body] assigns to an attribute of [src]
    stays in the registry. *)
Fixpoint for_values_of {A : Type} (body : A -> M (ReleaseSource.t * world) A)
    (reg : Dict.t ReleaseSource.t) (acc : A) (w : world)
  : result A * (Dict.t ReleaseSource.t * world) :=
  match reg with
  | [] => (Ok acc, ([], w))
  | (k, src) :: rest =>
      match body acc (src, w) with
      | (Ok acc', (src', w')) =>
          let (r, s) := for_values_of body rest acc' w' in
          (r, ((k, src') :: fst s, snd s))
      | (Raise e, (src', w')) => (Raise e, ((k, src') :: rest, w'))
      end
  end.

Definition for_values {A : Type} (body : A -> M (ReleaseSource.t * world) A)
    (acc : A) : M (t * world) A :=
  fun s =>
    let self := fst s in
    let (r, s') := for_values_of body (registry self) acc (snd s) in
    (r, ({| configfile := configfile self;
            timeout := timeout self;
            registry := fst s' |}, snd s')).

(** [__len__] *)
Definition __len__ (self : t) : nat := length (registry self).

Section Methods.
Variable E : externals.

(** The [latencies] property. *)
Definition latencies : M (t * world) (Dict.t latency) :=
  for_values
    (fun records =>
       l <- ReleaseSource.latencies E ;;
       ret (Dict.update records l))
    Dict.empty.

Definition get_urls (plain_version system architecture : string)
  : M (t * world) (list string) :=
  url_list <-
    for_values
      (fun url_list =>
         url <- ReleaseSource.get_url E plain_version system architecture ;;
         ret (url_list ++ [url]))
      [] ;;
  list_sort latency_lt
    (fun url =>
       l <- latencies ;;
       getitem l (netloc (urlparse E url)))
    url_list.

End Methods.

End SourceRegistry.

(** ** The module functions

    The state of the module is its global [default_registry] together with
    the network. *)

Section ModuleFunctions.
Variable E : externals.

(** [frames] is the number of stack frames the interpreter still grants:
    the call that would need one more raises [RecursionError]. *)
Fixpoint is_url_available (frames : nat) (url : string) (timeout : Q)
  : M world bool :=
  match frames with
  | O => raise RecursionError
  | S frames' =>
      r <- requests_head E url timeout ;;
      match r with
      | RequestException => ret false
      | Responded r =>
          if (status_code r / 100 =? 4)%Z then ret false
          else if ((status_code r =? 301) || (status_code r =? 302))%Z then
            new_url <- getitem (headers r) "Location" ;;
            is_url_available frames' new_url timeout
          else ret true
      end
  end.

(** Lines 169-172 of the source: the loop over the repeated list, with the
    availability check as [probe]. *)
Definition first_available {S : Type} (probe : string -> M S bool)
    (url_list : list string) : M S (option string) :=
  first_such_that probe url_list.

Definition query_download_url (version system arch : string) (max_try : Z)
    (timeout : Q) : M (SourceRegistry.t * world) (option string) :=
  url_list <- SourceRegistry.get_urls E version system arch ;;
  let url_list := chain_from_iterable (repeat url_list max_try) in
  first_available
    (fun url => on_snd (is_url_available (recursion_limit E) url timeout))
    url_list.

End ModuleFunctions.

(** ** Observing a run

    The definitions below are not part of [source.py]: they are what a test
    puts around it, and what the statements need to speak about a run. *)

(** A probe counter: [counted probe] behaves as [probe] and notes the url
    it was handed at the end of a list kept beside the state. *)
Definition counted {S : Type} (probe : string -> M S bool) (url : string)
  : M (S * list string) bool :=
  fun s => let (r, s') := probe url (fst s) in (r, (s', snd s ++ [url])).

(** The check that [query_download_url] makes for a url of the repeated
    list: it runs on the network and leaves [default_registry] alone. *)
Definition check (E : externals) (timeout : Q) (url : string)
  : M (SourceRegistry.t * world) bool :=
  on_snd (is_url_available E (recursion_limit E) url timeout).

(** The repeated list that [query_download_url] goes through. *)
Definition passes (url_list : list string) (max_try : Z) : list string :=
  chain_from_iterable (repeat url_list max_try).

(** [query_download_url] with the probe counter around the check it makes
    for each url of the repeated list. *)
Definition query_download_url_counted (E : externals)
    (version system arch : string) (max_try : Z) (timeout : Q)
  : M ((SourceRegistry.t * world) * list string) (option string) :=
  url_list <- on_fst (SourceRegistry.get_urls E version system arch) ;;
  let url_list := chain_from_iterable (repeat url_list max_try) in
  first_available
    (counted
       (fun url => on_snd (is_url_available E (recursion_limit E) url timeout)))
    url_list.

(** The outcomes of [probe] on the urls of a list, one after the other,
    whatever each outcome is. *)
Fixpoint check_each {S : Type} (probe : string -> M S bool)
    (urls : list string) (s : S) : list (result bool) :=
  match urls with
  | [] => []
  | url :: urls' =>
      let (r, s') := probe url s in r :: check_each probe urls' s'
  end.

(** The url at the end of the redirects that the availability check follows
    from [url]: the url whose answer let the check return [True]. *)
Fixpoint final_target (E : externals) (frames : nat) (url : string)
    (timeout : Q) (w : world) : option string :=
  match frames with
  | O => None
  | S frames' =>
      match requests_head_answer E w url timeout with
      | RequestException => None
      | Responded r =>
          if (status_code r / 100 =? 4)%Z then None
          else if ((status_code r =? 301) || (status_code r =? 302))%Z then
            match Dict.get "Location" (headers r) with
            | Some new_url =>
                final_target E frames' new_url timeout
                  (Call_requests_head url timeout (Responded r) :: w)
            | None => None
            end
          else Some url
      end
  end.

(** The hosts of both template lists of a mirror. *)
Definition all_hosts (E : externals) (src : ReleaseSource.t) : list string :=
  ReleaseSource.hosts E src ++ ReleaseSource.latest_hosts E src.

(** The template list that [get_url] selects. *)
Definition selected_templates (src : ReleaseSource.t) (plain_version : string)
  : list Template :=
  if String.eqb plain_version "latest"
  then ReleaseSource.latest_url_templates src
  else ReleaseSource.url_templates src.

(** The list comprehension of [get_urls] over the mirrors of [reg]: the
    best url of each, in the order of the registry. *)
Definition best_url_of_each (E : externals)
    (plain_version system architecture : string)
    (reg : Dict.t ReleaseSource.t) (w : world)
  : result (list string) * (Dict.t ReleaseSource.t * world) :=
  SourceRegistry.for_values_of
    (fun url_list =>
       url <- ReleaseSource.get_url E plain_version system architecture ;;
       ret (url_list ++ [url]))
    reg [] w.

(** The latency a mapping gives to the host of a url. *)
Definition latency_of (E : externals) (records : Dict.t latency)
    (url : string) : option latency :=
  Dict.get (netloc (urlparse E url)) records.

(** The substitution of one template, as [get_url] runs it. *)
Definition substituted (E : externals)
    (plain_version system architecture : string) (t : Template)
  : M (ReleaseSource.t * world) string :=
  match substitute E t (generate_info E plain_version system architecture)
  with
  | Ok url => ret url
  | Raise e => raise e
  end.

(** The key of the sort of [get_url]. *)
Definition latency_key (E : externals) (url : string)
  : M (ReleaseSource.t * world) latency :=
  l <- ReleaseSource.latencies E ;;
  getitem l (netloc (urlparse E url)).

(** Two urls ranked by the latencies that [records] gives to their hosts:
    both hosts are known, the first is not slower than the second, and a
    failure is followed by failures only. *)
Definition ranked (E : externals) (records : Dict.t latency) (a b : string)
  : Prop :=
  exists la lb,
    latency_of E records a = Some la
    /\ latency_of E records b = Some lb
    /\ latency_le la lb
    /\ (la = Unreachable -> lb = Unreachable).

(** The state that the checks of the urls of a list, made one after the
    other, leave. *)
Fixpoint state_after {S : Type} (probe : string -> M S bool)
    (urls : list string) (s : S) : S :=
  match urls with
  | [] => s
  | url :: urls' => state_after probe urls' (snd (probe url s))
  end.

(** A call of [requests.head] with the timeout [timeout]. *)
Definition is_head_call (timeout : Q) (c : call) : Prop :=
  exists url answer, c = Call_requests_head url timeout answer.

(** A call of [query_ip]. *)
Definition is_query_ip_call (c : call) : Prop :=
  exists host ip, c = Call_query_ip host ip.

(** A call of [port_response_time] with the timeout [timeout]. *)
Definition is_latency_call (timeout : Q) (c : call) : Prop :=
  exists ip port answer, c = Call_port_response_time ip port timeout answer.

(** Two states of one mirror: all that [__init__] has set but the cache is
    the same. *)
Definition same_mirror (a b : ReleaseSource.t) : Prop :=
  ReleaseSource.name a = ReleaseSource.name b
  /\ ReleaseSource.url_templates a = ReleaseSource.url_templates b
  /\ ReleaseSource.latest_url_templates a
     = ReleaseSource.latest_url_templates b
  /\ ReleaseSource.timeout a = ReleaseSource.timeout b.

(** Two states of one registry: the same keys in the same order, each with
    the same mirror. *)
Definition same_mirrors (reg reg' : Dict.t ReleaseSource.t) : Prop :=
  Forall2 (fun kv kv' => fst kv = fst kv' /\ same_mirror (snd kv) (snd kv'))
    reg reg'.

(** The registry as a method of [SourceRegistry] may leave it: the same
    file name and timeout, the same mirrors under the same keys. *)
Definition registry_kept (self : SourceRegistry.t)
    (s : SourceRegistry.t * world) : Prop :=
  SourceRegistry.configfile (fst s) = SourceRegistry.configfile self
  /\ SourceRegistry.timeout (fst s) = SourceRegistry.timeout self
  /\ same_mirrors (SourceRegistry.registry self)
       (SourceRegistry.registry (fst s)).

(** The addresses that the calls of [port_response_time] among [calls]
    probed. *)
Fixpoint probed_addresses (calls : list call) : list string :=
  match calls with
  | [] => []
  | Call_port_response_time ip _ _ _ :: calls' => ip :: probed_addresses calls'
  | _ :: calls' => probed_addresses calls'
  end.

(** An answer that redirects to [target]. *)
Definition redirects_to (r : Response) (target : string) : Prop :=
  (status_code r = 301 \/ status_code r = 302)%Z
  /\ Dict.get "Location" (headers r) = Some target.

(** ** A reference environment

    Models of the library functions and a table-driven network, for running
    the code on concrete mirrors. *)

Module Reference.

Definition is_letter (c : ascii) : bool :=
  ((("a" <=? c) && (c <=? "z")) || (("A" <=? c) && (c <=? "Z")))%char.

Definition is_digit (c : ascii) : bool := (("0" <=? c) && (c <=? "9"))%char.

Definition is_id_start (c : ascii) : bool := (c =? "_")%char || is_letter c.

Definition is_id_char (c : ascii) : bool := is_id_start c || is_digit c.

(** Where the scan of a template stands: in plain text, just after a [$],
    inside a [$name], just after [${], or inside a [${name]. *)
Inductive scan : Type :=
| Text
| Dollar
| Named (name : string)
| BraceOpen
| Braced (name : string).

Definition emit (c : ascii) (r : result string) : result string :=
  match r with
  | Ok s => Ok (String c s)
  | Raise e => Raise e
  end.

Definition emit_value (mapping : Dict.t string) (name : string)
    (rest : unit -> result string) : result string :=
  match Dict.get name mapping with
  | None => Raise (KeyError name)
  | Some v =>
      match rest tt with
      | Ok s => Ok (v ++ s)%string
      | Raise e => Raise e
      end
  end.

(** [string.Template.substitute]: [$$] is a dollar, [$name] and [${name}]
    are replaced by [mapping[name]] ([KeyError] when it is missing), any
    other [$] is a [ValueError]; the placeholders are handled from left to
    right. *)
Fixpoint substitute_from (mapping : Dict.t string) (st : scan) (s : string)
  : result string :=
  match s with
  | EmptyString =>
      match st with
      | Text => Ok EmptyString
      | Named name => emit_value mapping name (fun _ => Ok EmptyString)
      | Dollar | BraceOpen | Braced _ => Raise ValueError
      end
  | String c s' =>
      match st with
      | Text =>
          if (c =? "$")%char then substitute_from mapping Dollar s'
          else emit c (substitute_from mapping Text s')
      | Dollar =>
          if (c =? "$")%char then emit "$" (substitute_from mapping Text s')
          else if is_id_start c
          then substitute_from mapping (Named (String c EmptyString)) s'
          else if (c =? "{")%char then substitute_from mapping BraceOpen s'
          else Raise ValueError
      | Named name =>
          if is_id_char c
          then substitute_from mapping
                 (Named (name ++ String c EmptyString)%string) s'
          else
            emit_value mapping name
              (fun _ =>
                 if (c =? "$")%char then substitute_from mapping Dollar s'
                 else emit c (substitute_from mapping Text s'))
      | BraceOpen =>
          if is_id_start c
          then substitute_from mapping (Braced (String c EmptyString)) s'
          else Raise ValueError
      | Braced name =>
          if is_id_char c
          then substitute_from mapping
                 (Braced (name ++ String c EmptyString)%string) s'
          else if (c =? "}")%char
          then emit_value mapping name
                 (fun _ => substitute_from mapping Text s')
          else Raise ValueError
      end
  end.

Definition template_substitute (t : Template) (mapping : Dict.t string)
  : result string :=
  substitute_from mapping Text (template t).

(** [str.lower] on a letter of a scheme. *)
Definition lower (c : ascii) : ascii :=
  if (("A" <=? c) && (c <=? "Z"))%char
  then ascii_of_nat (nat_of_ascii c + 32)
  else c.

Definition is_scheme_char (c : ascii) : bool :=
  is_letter c || is_digit c
  || (c =? "+")%char || (c =? "-")%char || (c =? ".")%char.

(** The text before the first [:] and the text after it, when there is
    one. *)
Fixpoint split_colon (s : string) : option (string * string) :=
  match s with
  | EmptyString => None
  | String c s' =>
      if (c =? ":")%char then Some (EmptyString, s')
      else match split_colon s' with
           | Some (a, b) => Some (String c a, b)
           | None => None
           end
  end.

Fixpoint all_chars (p : ascii -> bool) (s : string) : bool :=
  match s with
  | EmptyString => true
  | String c s' => p c && all_chars p s'
  end.

Fixpoint map_chars (f : ascii -> ascii) (s : string) : string :=
  match s with
  | EmptyString => EmptyString
  | String c s' => String (f c) (map_chars f s')
  end.

(** The text up to the first of [/], [?] and [#]. *)
Fixpoint until_delimiter (s : string) : string :=
  match s with
  | EmptyString => EmptyString
  | String c s' =>
      if ((c =? "/") || (c =? "?") || (c =? "#"))%char then EmptyString
      else String c (until_delimiter s')
  end.

Definition netloc_of (rest : string) : string :=
  match rest with
  | String "/" (String "/" rest') => until_delimiter rest'
  | _ => EmptyString
  end.

(** [urllib.parse.urlparse] on a url without blanks, control characters or
    brackets: the scheme is what stands before the first [:] when that is a
    letter followed by scheme characters, the network location is what
    follows [//] up to the first [/], [?] or [#]. *)
Definition parse_url (url : string) : ParseResult :=
  match split_colon url with
  | Some (String c a, rest) =>
      if is_letter c && all_chars is_scheme_char a
      then {| scheme := map_chars lower (String c a);
              netloc := netloc_of rest |}
      else {| scheme := EmptyString; netloc := netloc_of url |}
  | _ => {| scheme := EmptyString; netloc := netloc_of url |}
  end.

(** A [generate_info]: it supplies the three request fields under the names
    [version], [sys] and [arch]. *)
Definition request_info (plain_version system architecture : string)
  : Dict.t string :=
  [("version", plain_version); ("sys", system); ("arch", architecture)].

Definition scheme_ports : Dict.t Z :=
  [("http", 80%Z); ("https", 443%Z); ("ftp", 21%Z)].

(** A network that does not change: a host resolves to itself, an address
    has the latency the table [speeds] gives it and is unreachable
    otherwise, a url answers what the table [answers] says and the request
    fails otherwise. *)
Definition static (speeds : Dict.t latency) (answers : Dict.t Response)
    (frames : nat) : externals :=
  {| urlparse := parse_url;
     substitute := template_substitute;
     generate_info := request_info;
     default_scheme_ports := scheme_ports;
     query_ip_answer := fun _ host => host;
     port_response_time_answer :=
       fun _ ip _ _ =>
         match Dict.get ip speeds with
         | Some l => l
         | None => Unreachable
         end;
     requests_head_answer :=
       fun _ url _ =>
         match Dict.get url answers with
         | Some r => Responded r
         | None => RequestException
         end;
     recursion_limit := frames |}.

Definition registry_of (sources : list ReleaseSource.t) : SourceRegistry.t :=
  {| SourceRegistry.configfile := "sources.json";
     SourceRegistry.timeout := 2 # 1;
     SourceRegistry.registry :=
       map (fun src => (ReleaseSource.name src, src)) sources |}.

(** Two mirrors: [near] answers fast, [far] slowly. *)
Definition near : ReleaseSource.t :=
  ReleaseSource.__init__ "near"
    ["https://near.example/$sys/$arch/julia-$version.tar.gz"]
    ["https://near.example/$sys/$arch/julia-latest.tar.gz"]
    ReleaseSource.default_timeout.

Definition far : ReleaseSource.t :=
  ReleaseSource.__init__ "far"
    ["https://far.example/julia/${version}/${sys}-${arch}.tar.gz"]
    []
    ReleaseSource.default_timeout.

(** A mirror whose template asks for a placeholder that [generate_info]
    does not supply. *)
Definition broken : ReleaseSource.t :=
  ReleaseSource.__init__ "broken"
    ["https://broken.example/$sys/$arch/$build/julia-$version.tar.gz"]
    []
    ReleaseSource.default_timeout.

Definition speeds : Dict.t latency :=
  [("near.example", Elapsed (5 # 1000)); ("far.example", Elapsed (10 # 1000));
   ("broken.example", Elapsed (1 # 1000))].

Definition near_url : string :=
  "https://near.example/linux/x86_64/julia-1.6.0.tar.gz".

Definition far_url : string :=
  "https://far.example/julia/1.6.0/linux-x86_64.tar.gz".

Definition cdn_url : string := "https://cdn.example/julia-1.6.0.tar.gz".

Definition answer (status : Z) (hdrs : Dict.t string) : Response :=
  {| status_code := status; headers := hdrs |}.

Definition probe_timeout : Q := 10 # 1.

(** The request of the examples: version 1.6.0 for linux on x86_64. *)
Definition release : string := "1.6.0".
Definition os : string := "linux".
Definition cpu : string := "x86_64".

(** [near] redirects to a url that answers 200; [far] does not answer. *)
Definition redirecting : externals :=
  static speeds
    [(near_url, answer 301 [("Location", cdn_url)]); (cdn_url, answer 200 [])]
    1000.

(** [near] redirects to the url of [far], which answers 200: the target
    of the redirect is itself a candidate. *)
Definition redirecting_to_far : externals :=
  static speeds
    [(near_url, answer 301 [("Location", far_url)]); (far_url, answer 200 [])]
    1000.

(** No url answers. *)
Definition silent : externals := static speeds [] 1000.

(** [far] has the lower latency and does not answer; [near] answers 200. *)
Definition far_first : externals :=
  static
    [("near.example", Elapsed (5 # 1000)); ("far.example", Elapsed (1 # 1000))]
    [(near_url, answer 200 [])]
    1000.

(** [near] answers with a server error. *)
Definition failing_server : externals :=
  static speeds [(near_url, answer 500 [])] 1000.

(** [near] answers 307 with a [Location] whose target answers 404. *)
Definition temporary_redirect : externals :=
  static speeds
    [(near_url, answer 307 [("Location", cdn_url)]); (cdn_url, answer 404 [])]
    1000.

(** [near] answers 302 without a [Location]. *)
Definition bare_redirect : externals :=
  static speeds [(near_url, answer 302 [])] 1000.

(** [near] answers 301 with itself as [Location]. *)
Definition looping : externals :=
  static speeds [(near_url, answer 301 [("Location", near_url)])] 1000.

(** Every host resolves to one address, which answers in 7 ms; no url
    answers. *)
Definition shared_address : string := "192.0.2.1".

Definition aliased : externals :=
  {| urlparse := parse_url;
     substitute := template_substitute;
     generate_info := request_info;
     default_scheme_ports := scheme_ports;
     query_ip_answer := fun _ _ => shared_address;
     port_response_time_answer := fun _ _ _ _ => Elapsed (7 # 1000);
     requests_head_answer := fun _ _ _ => RequestException;
     recursion_limit := 1000 |}.

(** A mirror with two domains. *)
Definition twin : ReleaseSource.t :=
  ReleaseSource.__init__ "twin"
    ["https://a.twin.example/julia-$version.tar.gz";
     "https://b.twin.example/julia-$version.tar.gz"]
    []
    ReleaseSource.default_timeout.

Definition twin_a_url : string := "https://a.twin.example/julia-1.6.0.tar.gz".
Definition twin_b_url : string := "https://b.twin.example/julia-1.6.0.tar.gz".

(** A mirror whose second url has a scheme without a default port. *)
Definition exotic_https : string := "https://exotic.example/julia.tar.gz".
Definition exotic_sftp : string := "sftp://exotic.example/julia.tar.gz".

Definition exotic : ReleaseSource.t :=
  ReleaseSource.__init__ "exotic" [exotic_https; exotic_sftp] []
    ReleaseSource.default_timeout.

(** The module at start: the registry as loaded, no call made yet. *)
Definition two_mirrors : SourceRegistry.t * world :=
  (registry_of [far; near], []).

Definition three_mirrors : SourceRegistry.t * world :=
  (registry_of [near; broken; far], []).

End Reference.

(** * Properties *)

(** ** The loop of [query_download_url] *)

Section FirstSuchThat.
Context {S : Type}.
Variable probe : string -> M S bool.

(** When every check returns [False], the loop ends with [None]. *)
Lemma first_such_that_none (xs : list string) (s : S) :
  Forall (eq (Ok false)) (check_each probe xs s) ->
  exists s', first_such_that probe xs s = (Ok None, s').
Proof.
  revert s. induction xs as [|x xs IH]; intros s H; simpl in *.
  - exists s. reflexivity.
  - unfold bind. destruct (probe x s) as [r s1].
    inversion H as [|? ? Hr Hrest]; subst.
    destruct (IH s1 Hrest) as [s' Hs']. exists s'. exact Hs'.
Qed.

(** A url the loop returns is one of the list; every check before it
    returned [False], and its own check, made in the state those checks
    left, returned [True] and ended the run. *)
Lemma first_such_that_some (xs : list string) (s s' : S) (x : string) :
  first_such_that probe xs s = (Ok (Some x), s') ->
  exists pre post,
    xs = pre ++ x :: post
    /\ Forall (eq (Ok false)) (check_each probe pre s)
    /\ probe x (state_after probe pre s) = (Ok true, s').
Proof.
  revert s. induction xs as [|y xs IH]; intros s H; simpl in H.
  - discriminate.
  - unfold bind in H. destruct (probe y s) as [[[|]|e] s1] eqn:Hy.
    + inversion H; subst. exists [], xs. repeat split; auto.
    + destruct (IH s1 H) as (pre & post & -> & Hpre & Hx).
      exists (y :: pre), post. simpl. rewrite Hy. repeat split; auto.
    + discriminate.
Qed.

(** The first check that returns [True] ends the loop: its url is returned
    in the state that check left, and the counter has noted the urls up to
    it and none after it. *)
Lemma first_such_that_found (pre post seen : list string) (url : string)
    (s s' : S) :
  Forall (eq (Ok false)) (check_each probe pre s) ->
  probe url (state_after probe pre s) = (Ok true, s') ->
  first_such_that probe (pre ++ url :: post) s = (Ok (Some url), s')
  /\ first_such_that (counted probe) (pre ++ url :: post) (s, seen)
     = (Ok (Some url), (s', seen ++ pre ++ [url])).
Proof.
  revert s seen. induction pre as [|x pre IH]; intros s seen Hpre Hurl;
    simpl in *.
  - unfold bind, counted. simpl. rewrite Hurl. split; reflexivity.
  - unfold bind. unfold counted at 1. simpl.
    destruct (probe x s) as [r s1].
    inversion Hpre as [|? ? Hr Hrest]; subst. simpl in Hurl.
    destruct (IH s1 (seen ++ [x]) Hrest Hurl) as [Hrun Hcounted].
    rewrite Hrun, Hcounted, <- app_assoc. split; reflexivity.
Qed.

(** The counter changes nothing in the run, what it has noted is the part
    of the list that the loop went through, and a url that is returned is
    the last one noted: its check returned [True] and ended the run, after
    every check before it had returned [False]. *)
Lemma first_such_that_counted (xs seen : list string) (s s' : S)
    (r : result (option string)) :
  first_such_that probe xs s = (r, s') ->
  exists pre post,
    xs = pre ++ post
    /\ first_such_that (counted probe) xs (s, seen) = (r, (s', seen ++ pre))
    /\ (r = Ok None -> post = [])
    /\ (forall x, r = Ok (Some x) ->
          exists pre' s0,
            pre = pre' ++ [x]
            /\ Forall (eq (Ok false)) (check_each probe pre' s)
            /\ probe x s0 = (Ok true, s')).
Proof.
  revert s seen. induction xs as [|y xs IH]; intros s seen H.
  - simpl in H. inversion H; subst. exists [], []. simpl.
    rewrite app_nil_r. repeat split; auto. intros x Hx. discriminate.
  - simpl in *. unfold bind in *. unfold counted at 1. simpl.
    destruct (probe y s) as [[[|]|e] s1] eqn:Hy; simpl.
    + inversion H; subst. exists [y], xs. repeat split; auto.
      * intros Hx. discriminate.
      * intros x Hx. inversion Hx; subst. exists [], s. repeat split; auto.
    + destruct (IH s1 (seen ++ [y]) H)
        as (pre & post & -> & Hrun & Hnone & Hsome).
      exists (y :: pre), post. rewrite Hrun. rewrite <- app_assoc. simpl.
      repeat split; auto.
      intros x Hx. destruct (Hsome x Hx) as (pre' & s0 & -> & Hpre & Hlast).
      exists (y :: pre'), s0. repeat split; auto.
      simpl. rewrite Hy. constructor; auto.
    + inversion H; subst. exists [y], xs. repeat split; auto.
      * intros Hx. discriminate.
      * intros x Hx. discriminate.
Qed.

End FirstSuchThat.

Lemma length_chain_repeat {A : Type} (l : list A) (n : Z) :
  (0 <= n)%Z ->
  Z.of_nat (length (chain_from_iterable (repeat l n)))
  = (n * Z.of_nat (length l))%Z.
Proof.
  intros Hn. unfold chain_from_iterable, repeat.
  rewrite <- (Z2Nat.id n Hn) at 2. generalize (Z.to_nat n) as k.
  induction k as [|k IH].
  - reflexivity.
  - change (List.repeat l (S k)) with (l :: List.repeat l k).
    rewrite concat_cons, length_app, Nat2Z.inj_add, IH. lia.
Qed.

(** The length of the repeated list, a negative count being no pass. *)
Lemma length_chain_repeat_max {A : Type} (l : list A) (n : Z) :
  Z.of_nat (length (chain_from_iterable (repeat l n)))
  = (Z.max 0 n * Z.of_nat (length l))%Z.
Proof.
  destruct (Z.le_gt_cases 0 n) as [Hn|Hn].
  - rewrite Z.max_r by exact Hn. apply length_chain_repeat. exact Hn.
  - rewrite Z.max_l by lia. unfold chain_from_iterable, repeat.
    replace (Z.to_nat n) with 0 by lia. reflexivity.
Qed.

Lemma in_chain_repeat {A : Type} (l : list A) (n : Z) (x : A) :
  In x (chain_from_iterable (repeat l n)) -> In x l.
Proof.
  unfold chain_from_iterable, repeat. generalize (Z.to_nat n) as k.
  induction k as [|k IH]; simpl; intros H.
  - contradiction.
  - apply in_app_or in H. tauto.
Qed.

(** ** The availability check *)

Section AvailabilityCheck.
Variable E : externals.

(** One step of [is_url_available], by the answer of [requests.head]. *)
Lemma is_url_available_step (frames : nat) (url : string) (timeout : Q)
    (w : world) :
  is_url_available E (S frames) url timeout w
  = let w' := Call_requests_head url timeout
                (requests_head_answer E w url timeout) :: w in
    match requests_head_answer E w url timeout with
    | RequestException => (Ok false, w')
    | Responded r =>
        if (status_code r / 100 =? 4)%Z then (Ok false, w')
        else if ((status_code r =? 301) || (status_code r =? 302))%Z then
          match Dict.get "Location" (headers r) with
          | Some new_url => is_url_available E frames new_url timeout w'
          | None => (Raise (KeyError "Location"), w')
          end
        else (Ok true, w')
    end.
Proof.
  simpl. unfold bind, requests_head. simpl.
  destruct (requests_head_answer E w url timeout) as [r|]; [|reflexivity].
  destruct (status_code r / 100 =? 4)%Z; [reflexivity|].
  destruct ((status_code r =? 301) || (status_code r =? 302))%Z;
    [|reflexivity].
  unfold getitem. destruct (Dict.get "Location" (headers r)); reflexivity.
Qed.

Lemma redirect_status (status : Z) :
  (status = 301 \/ status = 302)%Z ->
  (status / 100 =? 4)%Z = false
  /\ ((status =? 301) || (status =? 302))%Z = true.
Proof. intros [-> | ->]; split; reflexivity. Qed.

(** C5, as the code has it: an answer whose status is neither a 4xx nor 301
    nor 302 (a 5xx server error among them) makes [is_url_available] return
    [True]: the url counts as Available, after the one request. *)
Theorem other_status_is_available (frames : nat) (url : string) (timeout : Q)
    (w : world) (r : Response) :
  requests_head_answer E w url timeout = Responded r ->
  (status_code r / 100 <> 4)%Z ->
  (status_code r <> 301)%Z ->
  (status_code r <> 302)%Z ->
  is_url_available E (S frames) url timeout w
  = (Ok true, Call_requests_head url timeout (Responded r) :: w).
Proof.
  intros Hr H4 H301 H302. rewrite is_url_available_step, Hr. cbv zeta.
  apply Z.eqb_neq in H4, H301, H302. rewrite H4, H301, H302. reflexivity.
Qed.

(** C6, as the code has it: on a 301 or a 302 that carries a [Location], the
    check is the check of the target, with the same timeout, made after the
    request; on any other status of the 3xx class the check returns [True]
    after the one request, and the target is not probed. *)
Theorem redirect_followed_on_301_302 (frames : nat) (url : string)
    (timeout : Q) (w : world) (r : Response) :
  requests_head_answer E w url timeout = Responded r ->
  (forall new_url,
      (status_code r = 301 \/ status_code r = 302)%Z ->
      Dict.get "Location" (headers r) = Some new_url ->
      is_url_available E (S frames) url timeout w
      = is_url_available E frames new_url timeout
          (Call_requests_head url timeout (Responded r) :: w))
  /\ ((status_code r / 100 = 3)%Z ->
      (status_code r <> 301)%Z ->
      (status_code r <> 302)%Z ->
      is_url_available E (S frames) url timeout w
      = (Ok true, Call_requests_head url timeout (Responded r) :: w)).
Proof.
  intros Hr. split.
  - intros new_url Hs Hloc. rewrite is_url_available_step, Hr. cbv zeta.
    destruct (redirect_status _ Hs) as [-> ->]. rewrite Hloc. reflexivity.
  - intros H3 H301 H302. rewrite is_url_available_step, Hr. cbv zeta.
    apply Z.eqb_neq in H301, H302. rewrite H3, H301, H302. reflexivity.
Qed.

(** C10: a 301 or a 302 without a [Location] makes [is_url_available] raise
    [KeyError], it does not return [False]; and whenever the check returns
    [False], the last request it made either failed with a
    [RequestException] or was answered with a 4xx status. *)
Theorem redirect_without_location (timeout : Q) :
  (forall frames url w r,
      requests_head_answer E w url timeout = Responded r ->
      (status_code r = 301 \/ status_code r = 302)%Z ->
      Dict.get "Location" (headers r) = None ->
      is_url_available E (S frames) url timeout w
      = (Raise (KeyError "Location"),
         Call_requests_head url timeout (Responded r) :: w))
  /\ (forall frames url w w',
      is_url_available E frames url timeout w = (Ok false, w') ->
      exists last_url rest,
        w' = Call_requests_head last_url timeout
               (requests_head_answer E rest last_url timeout) :: rest
        /\ (requests_head_answer E rest last_url timeout = RequestException
            \/ exists r,
                requests_head_answer E rest last_url timeout = Responded r
                /\ (status_code r / 100 = 4)%Z)).
Proof.
  split.
  - intros frames url w r Hr Hs Hloc. rewrite is_url_available_step, Hr.
    cbv zeta. destruct (redirect_status _ Hs) as [-> ->]. rewrite Hloc.
    reflexivity.
  - induction frames as [|frames IH]; intros url w w' H.
    + discriminate.
    + rewrite is_url_available_step in H. cbv zeta in H.
      destruct (requests_head_answer E w url timeout) as [r|] eqn:Hr.
      * destruct (status_code r / 100 =? 4)%Z eqn:H4.
        -- inversion H; subst. exists url, w. rewrite Hr. split; auto.
           right. exists r. split; auto. apply Z.eqb_eq. exact H4.
        -- destruct ((status_code r =? 301) || (status_code r =? 302))%Z.
           ++ destruct (Dict.get "Location" (headers r)) as [new_url|].
              ** apply IH in H. exact H.
              ** discriminate.
           ++ discriminate.
      * inversion H; subst. exists url, w. rewrite Hr. split; auto.
Qed.

(** A check that returns [True] ended at a url whose answer was final. *)
Lemma available_has_final_target (timeout : Q) (frames : nat) (url : string)
    (w w' : world) :
  is_url_available E frames url timeout w = (Ok true, w') ->
  exists target, final_target E frames url timeout w = Some target.
Proof.
  revert url w. induction frames as [|frames IH]; intros url w H.
  - discriminate.
  - rewrite is_url_available_step in H. cbv zeta in H. simpl.
    destruct (requests_head_answer E w url timeout) as [r|]; [|discriminate].
    destruct (status_code r / 100 =? 4)%Z; [discriminate|].
    destruct ((status_code r =? 301) || (status_code r =? 302))%Z.
    + destruct (Dict.get "Location" (headers r)) as [new_url|];
        [|discriminate].
      eapply IH. exact H.
    + exists url. reflexivity.
Qed.

End AvailabilityCheck.

(** ** The resolver *)

Section Resolver.
Variable E : externals.
Variables version system arch : string.
Variable max_try : Z.
Variable timeout : Q.

Lemma query_download_url_after_get_urls (st st1 : SourceRegistry.t * world)
    (url_list : list string) :
  SourceRegistry.get_urls E version system arch st = (Ok url_list, st1) ->
  query_download_url E version system arch max_try timeout st
  = first_such_that (check E timeout) (passes url_list max_try) st1.
Proof.
  intros H. unfold query_download_url, bind. rewrite H. reflexivity.
Qed.

Lemma query_download_url_counted_after_get_urls
    (st st1 : SourceRegistry.t * world) (seen url_list : list string) :
  SourceRegistry.get_urls E version system arch st = (Ok url_list, st1) ->
  query_download_url_counted E version system arch max_try timeout (st, seen)
  = first_such_that (counted (check E timeout)) (passes url_list max_try)
      (st1, seen).
Proof.
  intros H. unfold query_download_url_counted, bind, on_fst. simpl.
  rewrite H. reflexivity.
Qed.

Lemma query_download_url_returns_after_get_urls
    (st st' : SourceRegistry.t * world) (r : option string) :
  query_download_url E version system arch max_try timeout st = (Ok r, st') ->
  exists url_list st1,
    SourceRegistry.get_urls E version system arch st = (Ok url_list, st1).
Proof.
  unfold query_download_url, bind.
  destruct (SourceRegistry.get_urls E version system arch st)
    as [[url_list|e] st1]; intros H.
  - exists url_list, st1. reflexivity.
  - discriminate.
Qed.

(** The check of the loop is [is_url_available] on the network. *)
Lemma check_result (url : string) (s s' : SourceRegistry.t * world)
    (r : result bool) :
  check E timeout url s = (r, s') ->
  is_url_available E (recursion_limit E) url timeout (snd s) = (r, snd s').
Proof.
  unfold check, on_snd.
  destruct (is_url_available E (recursion_limit E) url timeout (snd s))
    as [b w']. intros H. inversion H; subst. reflexivity.
Qed.

(** C1, as the code has it: the url that [query_download_url] returns is the
    candidate that the loop handed to the availability check, not the url
    that the redirects of that check ended at.  When it returns a url, that
    url stands in the repeated list of [get_urls] after urls whose checks
    all returned [False], and its own check, made in the state those left,
    returned [True] (having ended at some final target); and conversely the
    first url of the repeated list whose check returns [True] is the url
    returned, whatever target its redirects ended at. *)
Theorem returned_url_is_the_candidate (st st1 : SourceRegistry.t * world)
    (url_list : list string) :
  SourceRegistry.get_urls E version system arch st = (Ok url_list, st1) ->
  (forall url st',
      query_download_url E version system arch max_try timeout st
      = (Ok (Some url), st') ->
      exists pre post target,
        passes url_list max_try = pre ++ url :: post
        /\ Forall (eq (Ok false)) (check_each (check E timeout) pre st1)
        /\ check E timeout url (state_after (check E timeout) pre st1)
           = (Ok true, st')
        /\ final_target E (recursion_limit E) url timeout
             (snd (state_after (check E timeout) pre st1))
           = Some target)
  /\ (forall pre post url st',
         passes url_list max_try = pre ++ url :: post ->
         Forall (eq (Ok false)) (check_each (check E timeout) pre st1) ->
         check E timeout url (state_after (check E timeout) pre st1)
         = (Ok true, st') ->
         query_download_url E version system arch max_try timeout st
         = (Ok (Some url), st')).
Proof.
  intros Hget. rewrite (query_download_url_after_get_urls _ _ _ Hget). split.
  - intros url st' H.
    destruct (first_such_that_some _ _ _ _ _ H)
      as (pre & post & Hsplit & Hpre & Hcheck).
    assert (Htarget : exists target,
               final_target E (recursion_limit E) url timeout
                 (snd (state_after (check E timeout) pre st1)) = Some target).
    { eapply available_has_final_target. apply check_result. exact Hcheck. }
    destruct Htarget as [target Htarget].
    exists pre, post, target. repeat split; auto.
  - intros pre post url st' Hsplit Hpre Hcheck. rewrite Hsplit.
    apply (first_such_that_found _ pre post [] url st1 st' Hpre Hcheck).
Qed.

(** C3, as the code has it: when every check of every pass over the list of
    [get_urls] returns [False], [query_download_url] returns [None] (it
    raises nothing), and the checks it made are those of the whole list,
    pass after pass: [max_try] times the length of the list, a negative
    [max_try] being no pass. *)
Theorem all_unavailable_returns_none (st st1 : SourceRegistry.t * world)
    (seen url_list : list string) :
  SourceRegistry.get_urls E version system arch st = (Ok url_list, st1) ->
  Forall (eq (Ok false))
    (check_each (check E timeout) (passes url_list max_try) st1) ->
  exists st2,
    query_download_url E version system arch max_try timeout st
    = (Ok None, st2)
    /\ query_download_url_counted E version system arch max_try timeout
         (st, seen)
       = (Ok None, (st2, seen ++ passes url_list max_try))
    /\ passes url_list max_try
       = concat (List.repeat url_list (Z.to_nat max_try))
    /\ Z.of_nat (length (passes url_list max_try))
       = (Z.max 0 max_try * Z.of_nat (length url_list))%Z.
Proof.
  intros Hget Hall.
  destruct (first_such_that_none _ _ _ Hall) as [st2 Hrun].
  exists st2.
  rewrite (query_download_url_after_get_urls _ _ _ Hget).
  rewrite (query_download_url_counted_after_get_urls _ _ seen _ Hget).
  destruct (first_such_that_counted _ _ seen _ _ _ Hrun)
    as (pre & post & Hsplit & Hcounted & Hnone & _).
  rewrite (Hnone eq_refl), app_nil_r in Hsplit. subst pre.
  repeat split; auto.
  apply length_chain_repeat_max.
Qed.

(** C4: [query_download_url] checks the urls of the repeated list in the
    order of the list and stops at the first success.  Whatever the run
    gives, the checks made are those of a prefix of the repeated list, in
    its order; and as soon as a check returns [True], all checks before it
    having returned [False], the run ends: the url of that check is
    returned in the state the check left, and the checks made are those up
    to that url, none after it in the pass or in a later pass. *)
Theorem stops_at_first_available (st st1 : SourceRegistry.t * world)
    (url_list : list string) :
  SourceRegistry.get_urls E version system arch st = (Ok url_list, st1) ->
  (forall seen r st2,
      query_download_url E version system arch max_try timeout st = (r, st2) ->
      exists pre post,
        passes url_list max_try = pre ++ post
        /\ query_download_url_counted E version system arch max_try timeout
             (st, seen)
           = (r, (st2, seen ++ pre))
        /\ (forall url, r = Ok (Some url) ->
              exists pre' s0,
                pre = pre' ++ [url]
                /\ Forall (eq (Ok false))
                     (check_each (check E timeout) pre' st1)
                /\ check E timeout url s0 = (Ok true, st2)))
  /\ (forall seen pre post url st2,
         passes url_list max_try = pre ++ url :: post ->
         Forall (eq (Ok false)) (check_each (check E timeout) pre st1) ->
         check E timeout url (state_after (check E timeout) pre st1)
         = (Ok true, st2) ->
         query_download_url E version system arch max_try timeout st
         = (Ok (Some url), st2)
         /\ query_download_url_counted E version system arch max_try timeout
              (st, seen)
            = (Ok (Some url), (st2, seen ++ pre ++ [url]))).
Proof.
  intros Hget. split.
  - intros seen r st2 Hrun.
    rewrite (query_download_url_after_get_urls _ _ _ Hget) in Hrun.
    rewrite (query_download_url_counted_after_get_urls _ _ seen _ Hget).
    destruct (first_such_that_counted _ _ seen _ _ _ Hrun)
      as (pre & post & Hsplit & Hcounted & _ & Hsome).
    exists pre, post. repeat split; auto.
  - intros seen pre post url st2 Hsplit Hpre Hcheck.
    rewrite (query_download_url_after_get_urls _ _ _ Hget).
    rewrite (query_download_url_counted_after_get_urls _ _ seen _ Hget).
    rewrite Hsplit.
    apply (first_such_that_found _ pre post seen url st1 st2 Hpre Hcheck).
Qed.

End Resolver.

(** ** Dictionaries and comprehensions *)

Lemma get_setitem_same {V : Type} (k : string) (v : V) (d : Dict.t V) :
  Dict.get k (Dict.setitem k v d) = Some v.
Proof.
  induction d as [|[k' v'] d IH]; simpl.
  - rewrite String.eqb_refl. reflexivity.
  - destruct (String.eqb k k') eqn:Hk; simpl; rewrite Hk; auto.
Qed.

Lemma get_setitem_other {V : Type} (k k' : string) (v : V) (d : Dict.t V) :
  k <> k' -> Dict.get k (Dict.setitem k' v d) = Dict.get k d.
Proof.
  intros Hne. induction d as [|[k0 v0] d IH]; simpl.
  - apply String.eqb_neq in Hne. rewrite Hne. reflexivity.
  - destruct (String.eqb_spec k' k0) as [->|Hk]; simpl.
    + apply String.eqb_neq in Hne. rewrite Hne. reflexivity.
    + destruct (String.eqb k k0); auto.
Qed.

(** A key that has an entry keeps one through an assignment. *)
Lemma get_setitem_defined {V : Type} (k k' : string) (v : V) (d : Dict.t V) :
  Dict.get k d <> None -> Dict.get k (Dict.setitem k' v d) <> None.
Proof.
  intros H. destruct (String.eqb_spec k k') as [->|Hne].
  - rewrite get_setitem_same. discriminate.
  - rewrite get_setitem_other; auto.
Qed.

Lemma get_defined_nonempty {V : Type} (k : string) (d : Dict.t V) :
  Dict.get k d <> None -> d <> [].
Proof. intros H ->. apply H. reflexivity. Qed.


Section Comprehensions.
Context {S X : Type}.

(** A comprehension whose function leaves the state [s] as it is leaves it
    as it is, and each element of its list is what the function returns on
    the element of the same rank. *)
Lemma list_comprehension_fixed {A : Type} (f : X -> M S A) (xs : list X)
    (s s' : S) (ys : list A) :
  (forall x, In x xs -> snd (f x s) = s) ->
  list_comprehension f xs s = (Ok ys, s') ->
  s' = s /\ Forall2 (fun x y => f x s = (Ok y, s)) xs ys.
Proof.
  revert ys. induction xs as [|x xs IH]; intros ys Hfix H; simpl in H.
  - inversion H; subst. split; auto.
  - unfold bind in H. pose proof (Hfix x (or_introl eq_refl)) as Hx.
    destruct (f x s) as [[a|e] s1] eqn:Hf; simpl in Hx; subst s1;
      [|discriminate].
    destruct (list_comprehension f xs s) as [[rest|e] s2] eqn:Hrest;
      [|discriminate].
    inversion H; subst.
    destruct (IH rest (fun x0 Hin => Hfix x0 (or_intror Hin)) eq_refl)
      as [-> HF].
    split; auto.
Qed.

Lemma list_comprehension_length {A : Type} (f : X -> M S A) (xs : list X)
    (s s' : S) (ys : list A) :
  list_comprehension f xs s = (Ok ys, s') -> length ys = length xs.
Proof.
  revert s ys. induction xs as [|x xs IH]; intros s ys H; simpl in H.
  - inversion H; subst. reflexivity.
  - unfold bind in H. destruct (f x s) as [[a|e] s1]; [|discriminate].
    destruct (list_comprehension f xs s1) as [[rest|e] s2] eqn:Hrest;
      [|discriminate].
    inversion H; subst. simpl. f_equal. eapply IH. exact Hrest.
Qed.

(** The first element on which the function raises makes the comprehension
    raise, when the function leaves the state as it is on the elements
    before it. *)
Lemma list_comprehension_raises {A : Type} (f : X -> M S A)
    (pre post : list X) (x : X) (s : S) (e : exn) :
  Forall (fun x' => exists a, f x' s = (Ok a, s)) pre ->
  f x s = (Raise e, s) ->
  list_comprehension f (pre ++ x :: post) s = (Raise e, s).
Proof.
  intros Hpre Hx. induction Hpre as [|x' pre [a Ha] _ IH]; simpl.
  - unfold bind. rewrite Hx. reflexivity.
  - unfold bind in *. rewrite Ha, IH. reflexivity.
Qed.

(** The entries of a dictionary comprehension: whatever [acc] had, and the
    key of every element of the list. *)
Lemma dict_comprehension_from_defined {V : Type}
    (entry : X -> M S (string * V)) (key : X -> string) (xs : list X)
    (acc d : Dict.t V) (s s' : S) :
  (forall x s0 kv s1, entry x s0 = (Ok kv, s1) -> fst kv = key x) ->
  dict_comprehension_from entry xs acc s = (Ok d, s') ->
  forall k, Dict.get k acc <> None \/ In k (map key xs) ->
            Dict.get k d <> None.
Proof.
  intros Hkey. revert acc s.
  induction xs as [|x xs IH]; intros acc s H k Hk; simpl in H.
  - inversion H; subst. destruct Hk as [Hk|[]]. exact Hk.
  - unfold bind in H. destruct (entry x s) as [[kv|e] s1] eqn:He;
      [|discriminate].
    apply (IH _ _ H). destruct Hk as [Hk|[Hk|Hk]].
    + left. apply get_setitem_defined. exact Hk.
    + left. rewrite (Hkey _ _ _ _ He), Hk, get_setitem_same. discriminate.
    + right. exact Hk.
Qed.

End Comprehensions.

(** What every step keeps, the comprehension keeps, whether it returns or
    raises. *)
Lemma list_comprehension_invariant {S X A : Type} (I : S -> Prop)
    (f : X -> M S A) (xs : list X) (s s' : S) (r : result (list A)) :
  (forall x s0 r0 s1, I s0 -> f x s0 = (r0, s1) -> I s1) ->
  I s ->
  list_comprehension f xs s = (r, s') ->
  I s'.
Proof.
  intros Hf. revert s r. induction xs as [|x xs IH]; intros s r Hs H;
    simpl in H.
  - inversion H; subst. exact Hs.
  - unfold bind in H. destruct (f x s) as [[a|e] s1] eqn:Hx.
    + pose proof (Hf _ _ _ _ Hs Hx) as Hs1.
      destruct (list_comprehension f xs s1) as [[rest|e] s2] eqn:Hrest;
        inversion H; subst; eapply IH; eauto.
    + inversion H; subst. eapply Hf; eauto.
Qed.

(** ** The order of the latencies and the sort *)

Lemma latency_lt_asym (a b : latency) :
  latency_lt a b = true -> latency_lt b a = false.
Proof.
  destruct a as [x|], b as [y|]; simpl; auto; try discriminate.
  intros H. apply negb_true_iff in H. apply negb_false_iff.
  apply Qle_bool_iff. apply Qlt_le_weak. apply Qnot_le_lt.
  intros Hle. apply Qle_bool_iff in Hle. congruence.
Qed.

Lemma latency_le_trans (a b c : latency) :
  latency_le a b -> latency_le b c -> latency_le a c.
Proof.
  unfold latency_le.
  destruct a as [x|], b as [y|], c as [z|]; simpl; auto; try discriminate.
  intros H1 H2. apply negb_false_iff in H1, H2. apply negb_false_iff.
  apply Qle_bool_iff in H1, H2. apply Qle_bool_iff.
  eapply Qle_trans; eauto.
Qed.

(** Nothing but a failure ranks after a failure. *)
Lemma latency_le_unreachable (b : latency) :
  latency_le Unreachable b -> b = Unreachable.
Proof. unfold latency_le. destruct b; simpl; [discriminate | reflexivity]. Qed.

Section SortedByKey.
Context {A : Type}.

Lemma insert_keyed_permutation (x : latency * A) (l : list (latency * A)) :
  Permutation (x :: l) (insert_keyed latency_lt x l).
Proof.
  induction l as [|y l IH]; simpl.
  - apply Permutation_refl.
  - destruct (latency_lt (fst y) (fst x)).
    + eapply perm_trans; [apply perm_swap|]. apply perm_skip. exact IH.
    + apply Permutation_refl.
Qed.

Lemma sort_keyed_permutation (l : list (latency * A)) :
  Permutation l (sort_keyed latency_lt l).
Proof.
  induction l as [|x l IH]; simpl.
  - apply perm_nil.
  - eapply perm_trans; [|apply insert_keyed_permutation].
    apply perm_skip. exact IH.
Qed.

Lemma insert_keyed_sorted (x : latency * A) (l : list (latency * A)) :
  StronglySorted keys_ascend l ->
  StronglySorted keys_ascend (insert_keyed latency_lt x l).
Proof.
  induction 1 as [|y l Hsorted IH Hy]; simpl.
  - constructor; constructor.
  - destruct (latency_lt (fst y) (fst x)) eqn:Hlt.
    + constructor; [exact IH|].
      apply (Permutation_Forall (insert_keyed_permutation x l)).
      constructor; [|exact Hy].
      unfold keys_ascend, latency_le. apply latency_lt_asym. exact Hlt.
    + constructor.
      * constructor; assumption.
      * constructor; [exact Hlt|].
        eapply Forall_impl; [|exact Hy]. intros z Hz.
        eapply latency_le_trans; [exact Hlt | exact Hz].
Qed.

Lemma sort_keyed_sorted (l : list (latency * A)) :
  StronglySorted keys_ascend (sort_keyed latency_lt l).
Proof.
  induction l as [|x l IH]; simpl.
  - constructor.
  - apply insert_keyed_sorted. exact IH.
Qed.

End SortedByKey.

Lemma map_snd_combine {A B : Type} (l : list A) (l' : list B) :
  length l = length l' -> map snd (combine l l') = l'.
Proof.
  revert l'. induction l as [|a l IH]; intros [|b l'] H; simpl in *;
    try discriminate; auto.
  f_equal. apply IH. lia.
Qed.

Lemma StronglySorted_nth_error {A : Type} (R : A -> A -> Prop) (l : list A) :
  StronglySorted R l ->
  forall i j a b,
    i < j -> nth_error l i = Some a -> nth_error l j = Some b -> R a b.
Proof.
  induction 1 as [|x l Hsorted IH Hx]; intros i j a b Hij Hi Hj.
  - destruct i; discriminate.
  - destruct j as [|j]; [lia|]. simpl in Hj. destruct i as [|i]; simpl in Hi.
    + inversion Hi; subst. rewrite Forall_forall in Hx. apply Hx.
      eapply nth_error_In. exact Hj.
    + apply (IH i j); auto. lia.
Qed.

(** ** One mirror *)

Section Mirror.
Variable E : externals.

Lemma with_latencies_same (src : ReleaseSource.t) :
  ReleaseSource.with_latencies src (ReleaseSource._latencies src) = src.
Proof. destruct src. reflexivity. Qed.

(** A mirror whose cache is not empty answers from it: nothing is measured
    and nothing changes. *)
Lemma latencies_cached (src : ReleaseSource.t) (w : world) :
  ReleaseSource._latencies src <> [] ->
  ReleaseSource.latencies E (src, w)
  = (Ok (ReleaseSource._latencies src), (src, w)).
Proof.
  intros H. unfold ReleaseSource.latencies, bind, ReleaseSource.get_self.
  simpl. destruct (ReleaseSource._latencies src) eqn:Hc; [contradiction|].
  simpl. rewrite Hc. reflexivity.
Qed.

(** A mirror whose cache is empty measures, and keeps what it measured. *)
Lemma latencies_fresh (src : ReleaseSource.t) (w : world) :
  ReleaseSource._latencies src = [] ->
  ReleaseSource.latencies E (src, w)
  = match ReleaseSource.measured_latencies E src w with
    | (Ok d, w') => (Ok d, (ReleaseSource.with_latencies src d, w'))
    | (Raise e, w') => (Raise e, (src, w'))
    end.
Proof.
  intros H. unfold ReleaseSource.latencies, bind, ReleaseSource.get_self.
  simpl. rewrite H. simpl. unfold on_snd. simpl.
  destruct (ReleaseSource.measured_latencies E src w) as [[d|e] w'];
    reflexivity.
Qed.

(** What [latencies] returns is what the mirror then holds, and the
    templates of the mirror are not touched. *)
Lemma latencies_returns (src src' : ReleaseSource.t) (w w' : world)
    (d : Dict.t latency) :
  ReleaseSource.latencies E (src, w) = (Ok d, (src', w')) ->
  src' = ReleaseSource.with_latencies src d.
Proof.
  destruct (ReleaseSource._latencies src) as [|kv rest] eqn:Hc.
  - rewrite (latencies_fresh _ _ Hc).
    destruct (ReleaseSource.measured_latencies E src w) as [[d0|e] w0];
      intros H; inversion H; subst. reflexivity.
  - rewrite latencies_cached by (rewrite Hc; discriminate).
    intros H; inversion H; subst. symmetry. apply with_latencies_same.
Qed.

Lemma measured_latencies_defined (src : ReleaseSource.t) (w w' : world)
    (d : Dict.t latency) :
  ReleaseSource.measured_latencies E src w = (Ok d, w') ->
  forall host, In host (all_hosts E src) -> Dict.get host d <> None.
Proof.
  unfold ReleaseSource.measured_latencies, bind. intros H host Hin.
  destruct (dict_comprehension _ _ w) as [[host_ip_records|e] w1];
    [|discriminate].
  destruct (dict_comprehension _ _ w1) as [[ip_port_records|e] w2];
    [|discriminate].
  destruct (for_each _ _ _ w2) as [[latency_records|e] w3]; [|discriminate].
  unfold dict_comprehension in H.
  eapply (dict_comprehension_from_defined _ (fun host => host)); [|exact H|].
  - intros x s0 kv s1. unfold bind, getitem.
    destruct (Dict.get x host_ip_records) as [ip|]; simpl; [|discriminate].
    destruct (Dict.get ip latency_records) as [l|]; simpl; [|discriminate].
    intros Hkv. inversion Hkv; subst. reflexivity.
  - right. rewrite map_id. unfold all_hosts, ReleaseSource.hosts,
      ReleaseSource.latest_hosts in Hin. rewrite <- map_app in Hin.
    exact Hin.
Qed.


(** C9: [get_url] on a mirror whose selected template list is empty raises
    [IndexError], whatever the other template list holds: it returns no url
    and does not fall back to the other list. *)
Theorem get_url_without_template (src : ReleaseSource.t) (w : world)
    (plain_version system architecture : string) :
  selected_templates src plain_version = [] ->
  ReleaseSource.get_url E plain_version system architecture (src, w)
  = (Raise IndexError, (src, w)).
Proof.
  unfold selected_templates, ReleaseSource.get_url, bind. simpl.
  intros ->. reflexivity.
Qed.

End Mirror.

(** ** The best url of a mirror *)

Section BestUrl.
Variable E : externals.
Variables plain_version system architecture : string.

Lemma get_url_unfold (src : ReleaseSource.t) (w : world) :
  ReleaseSource.get_url E plain_version system architecture (src, w)
  = (url_list <-
       list_comprehension (substituted E plain_version system architecture) (selected_templates src plain_version) ;;
     url_list <- list_sort latency_lt (latency_key E) url_list ;;
     match url_list with
     | url :: _ => ret url
     | [] => raise IndexError
     end) (src, w).
Proof. reflexivity. Qed.

Lemma substituted_fixed (t : Template) (s : ReleaseSource.t * world) :
  snd ((substituted E plain_version system architecture) t s) = s.
Proof.
  unfold substituted.
  destruct (substitute E t _); reflexivity.
Qed.

Lemma latency_key_cached (url : string) (src : ReleaseSource.t) (w : world) :
  ReleaseSource._latencies src <> [] ->
  snd ((latency_key E) url (src, w)) = (src, w).
Proof.
  intros H. unfold latency_key, bind. rewrite (latencies_cached E _ _ H).
  unfold getitem. destruct (Dict.get _ _); reflexivity.
Qed.

(** A template whose substitution raises makes [get_url] raise the same
    exception, before anything is measured. *)
Lemma get_url_template_error (src : ReleaseSource.t) (w : world)
    (pre post : list Template) (t : Template) (e : exn) :
  selected_templates src plain_version = pre ++ t :: post ->
  Forall
    (fun t' =>
       exists url,
         substitute E t' (generate_info E plain_version system architecture)
         = Ok url) pre ->
  substitute E t (generate_info E plain_version system architecture)
  = Raise e ->
  ReleaseSource.get_url E plain_version system architecture (src, w)
  = (Raise e, (src, w)).
Proof.
  intros Hsel Hpre Ht. rewrite get_url_unfold. unfold bind at 1.
  rewrite Hsel.
  rewrite (list_comprehension_raises (substituted E plain_version system architecture) pre post t (src, w) e).
  - reflexivity.
  - eapply Forall_impl; [|exact Hpre]. intros t' [url Hurl]. exists url.
    unfold substituted. rewrite Hurl. reflexivity.
  - unfold substituted. rewrite Ht. reflexivity.
Qed.

(** When [get_url] returns, the cache of the mirror is not empty. *)
Lemma get_url_fills_cache (src src' : ReleaseSource.t) (w w' : world)
    (url : string) :
  ReleaseSource.get_url E plain_version system architecture (src, w)
  = (Ok url, (src', w')) ->
  ReleaseSource._latencies src' <> [].
Proof.
  rewrite get_url_unfold. unfold bind at 1.
  destruct (list_comprehension (substituted E plain_version system architecture) _ (src, w))
    as [[urls|e] s1] eqn:Hsub; [|discriminate].
  apply list_comprehension_fixed in Hsub;
    [|intros; apply substituted_fixed].
  destruct Hsub as [-> _]. unfold bind, list_sort, bind.
  destruct (list_comprehension (latency_key E) urls (src, w))
    as [[keys|e] s2] eqn:Hkeys; [|discriminate].
  destruct urls as [|u rest].
  - simpl in Hkeys. inversion Hkeys; subst. simpl. discriminate.
  - intros Hret.
    assert (Hs2 : s2 = (src', w')).
    { unfold ret in Hret.
      destruct (map snd (sort_keyed latency_lt (combine keys (u :: rest))));
        [discriminate|]. inversion Hret. reflexivity. }
    subst s2. clear Hret. simpl in Hkeys. unfold bind in Hkeys.
    destruct ((latency_key E) u (src, w)) as [[k|e] [src1 w1]] eqn:Hk;
      [|discriminate].
    assert (Hcache : ReleaseSource._latencies src1 <> []).
    { unfold latency_key, bind in Hk.
      destruct (ReleaseSource.latencies E (src, w)) as [[l|e] [src2 w2]]
        eqn:Hl; [|discriminate].
      pose proof (latencies_returns E _ _ _ _ _ Hl) as Hsrc2.
      unfold getitem in Hk.
      destruct (Dict.get (netloc (urlparse E u)) l) as [k'|] eqn:Hget;
        [|discriminate].
      inversion Hk; subst. simpl.
      apply (get_defined_nonempty (netloc (urlparse E u))). rewrite Hget.
      discriminate. }
    destruct (list_comprehension (latency_key E) rest (src1, w1))
      as [[ks|e] s3] eqn:Hrest; [|discriminate].
    apply list_comprehension_fixed in Hrest;
      [|intros; apply latency_key_cached; exact Hcache].
    destruct Hrest as [-> _]. inversion Hkeys; subst. exact Hcache.
Qed.

End BestUrl.

(** ** The cache of a mirror *)

Section MeasuredOnce.
Variable E : externals.



End MeasuredOnce.

(** ** The registry *)

Section Registry.
Variable E : externals.
Variables plain_version system architecture : string.

Lemma for_values_of_app {A : Type}
    (body : A -> M (ReleaseSource.t * world) A)
    (pre rest pre' : Dict.t ReleaseSource.t) (acc acc1 : A) (w w1 : world) :
  SourceRegistry.for_values_of body pre acc w = (Ok acc1, (pre', w1)) ->
  SourceRegistry.for_values_of body (pre ++ rest) acc w
  = let (r, s) := SourceRegistry.for_values_of body rest acc1 w1 in
    (r, (pre' ++ fst s, snd s)).
Proof.
  revert pre' acc w. induction pre as [|[k src] pre IH]; intros pre' acc w H.
  - simpl in H. inversion H; subst. simpl.
    destruct (SourceRegistry.for_values_of body rest acc1 w1) as [r [reg w2]].
    reflexivity.
  - simpl in *. destruct (body acc (src, w)) as [[acc'|e] [src' w']];
      [|discriminate].
    destruct (SourceRegistry.for_values_of body pre acc' w')
      as [[acc2|e] [reg2 w2]] eqn:Hpre; simpl in H; inversion H; subst.
    rewrite (IH _ _ _ Hpre).
    destruct (SourceRegistry.for_values_of body rest acc1 w1) as [r [reg w3]].
    reflexivity.
Qed.

(** What the body establishes on the mirror it ran on holds of every mirror
    once the loop has returned. *)
Lemma for_values_of_each {A : Type}
    (body : A -> M (ReleaseSource.t * world) A)
    (P : ReleaseSource.t -> Prop) (reg reg' : Dict.t ReleaseSource.t)
    (acc r : A) (w w' : world) :
  (forall acc0 src w0 acc1 src' w1,
      body acc0 (src, w0) = (Ok acc1, (src', w1)) -> P src') ->
  SourceRegistry.for_values_of body reg acc w = (Ok r, (reg', w')) ->
  Forall (fun kv => P (snd kv)) reg'.
Proof.
  intros Hbody. revert reg' acc w.
  induction reg as [|[k src] reg IH]; intros reg' acc w H; simpl in H.
  - inversion H; subst. constructor.
  - destruct (body acc (src, w)) as [[acc'|e] [src' w1]] eqn:Hb;
      [|discriminate].
    destruct (SourceRegistry.for_values_of body reg acc' w1)
      as [[r2|e] [reg2 w2]] eqn:Hrest; simpl in H; inversion H; subst.
    constructor.
    + simpl. eapply Hbody. exact Hb.
    + eapply IH. exact Hrest.
Qed.

(** The list comprehension of [get_urls] adds one url for each mirror. *)
Lemma best_urls_length (reg reg' : Dict.t ReleaseSource.t)
    (acc best : list string) (w w' : world) :
  SourceRegistry.for_values_of
    (fun url_list =>
       url <- ReleaseSource.get_url E plain_version system architecture ;;
       ret (url_list ++ [url]))
    reg acc w = (Ok best, (reg', w')) ->
  length best = length acc + length reg.
Proof.
  revert reg' acc w. induction reg as [|[k src] reg IH];
    intros reg' acc w H; simpl in H.
  - inversion H; subst. simpl. lia.
  - unfold bind at 1 in H.
    destruct (ReleaseSource.get_url E plain_version system architecture
                (src, w)) as [[url|e] [src' w1]]; [|discriminate].
    simpl in H.
    destruct (SourceRegistry.for_values_of _ reg (acc ++ [url]) w1)
      as [[r2|e] [reg2 w2]] eqn:Hrest; simpl in H; inversion H; subst.
    rewrite (IH _ _ _ Hrest), length_app. simpl. lia.
Qed.

(** Over mirrors whose caches are not empty the merged view is a function
    of the caches alone: it calls nothing and changes nothing. *)
Lemma merged_view_of_cached (reg : Dict.t ReleaseSource.t) :
  Forall (fun kv => ReleaseSource._latencies (snd kv) <> []) reg ->
  forall acc, exists records, forall w,
    SourceRegistry.for_values_of
      (fun records =>
         l <- ReleaseSource.latencies E ;;
         ret (Dict.update records l))
      reg acc w = (Ok records, (reg, w)).
Proof.
  induction 1 as [|[k src] reg Hsrc _ IH]; intros acc.
  - exists acc. reflexivity.
  - simpl in Hsrc.
    destruct (IH (Dict.update acc (ReleaseSource._latencies src)))
      as [records Hrec].
    exists records. intros w. simpl. unfold bind at 1.
    rewrite (latencies_cached E _ _ Hsrc). simpl. rewrite Hrec. reflexivity.
Qed.

Lemma registry_latencies_of_cached (self : SourceRegistry.t) :
  Forall (fun kv => ReleaseSource._latencies (snd kv) <> [])
    (SourceRegistry.registry self) ->
  exists records, forall w,
    SourceRegistry.latencies E (self, w) = (Ok records, (self, w)).
Proof.
  intros H. destruct (merged_view_of_cached _ H Dict.empty) as [records Hrec].
  exists records. intros w.
  unfold SourceRegistry.latencies, SourceRegistry.for_values. simpl.
  rewrite Hrec. destruct self. reflexivity.
Qed.

(** The two steps of [get_urls]. *)
Lemma get_urls_unfold (self : SourceRegistry.t) (w : world) :
  SourceRegistry.get_urls E plain_version system architecture (self, w)
  = match best_url_of_each E plain_version system architecture
            (SourceRegistry.registry self) w with
    | (Ok best, (reg', w')) =>
        list_sort latency_lt
          (fun url =>
             l <- SourceRegistry.latencies E ;;
             getitem l (netloc (urlparse E url)))
          best
          ({| SourceRegistry.configfile := SourceRegistry.configfile self;
              SourceRegistry.timeout := SourceRegistry.timeout self;
              SourceRegistry.registry := reg' |}, w')
    | (Raise e, (reg', w')) =>
        (Raise e,
         ({| SourceRegistry.configfile := SourceRegistry.configfile self;
             SourceRegistry.timeout := SourceRegistry.timeout self;
             SourceRegistry.registry := reg' |}, w'))
    end.
Proof.
  unfold SourceRegistry.get_urls, bind at 1, SourceRegistry.for_values,
    best_url_of_each. simpl.
  destruct (SourceRegistry.for_values_of _ (SourceRegistry.registry self) [] w)
    as [[best|e] [reg' w']]; reflexivity.
Qed.

Lemma get_urls_length (self : SourceRegistry.t) (w : world)
    (url_list : list string) (st' : SourceRegistry.t * world) :
  SourceRegistry.get_urls E plain_version system architecture (self, w)
  = (Ok url_list, st') ->
  length url_list = length (SourceRegistry.registry self).
Proof.
  rewrite get_urls_unfold.
  destruct (best_url_of_each _ _ _ _ _ w) as [[best|e] [reg' w']] eqn:Hbest;
    [|discriminate].
  unfold list_sort, bind.
  destruct (list_comprehension _ best _) as [[keys|e] s2] eqn:Hkeys;
    [|discriminate].
  intros H. inversion H; subst.
  rewrite length_map.
  rewrite <- (Permutation_length (sort_keyed_permutation (combine keys best))).
  rewrite length_combine, (list_comprehension_length _ _ _ _ _ Hkeys).
  rewrite Nat.min_id. apply best_urls_length in Hbest. simpl in Hbest.
  exact Hbest.
Qed.

End Registry.

(** ** The candidate list *)

Section Candidates.
Variable E : externals.
Variables plain_version system architecture : string.

Lemma Forall2_combine_keys (records : Dict.t latency) (urls : list string)
    (keys : list latency) :
  Forall2 (fun url k => latency_of E records url = Some k) urls keys ->
  Forall (fun p => latency_of E records (snd p) = Some (fst p))
    (combine keys urls).
Proof.
  induction 1 as [|url k urls keys H _ IH]; simpl; constructor; auto.
Qed.

Lemma sorted_keys_ranked (records : Dict.t latency)
    (l : list (latency * string)) :
  StronglySorted keys_ascend l ->
  Forall (fun p => latency_of E records (snd p) = Some (fst p)) l ->
  StronglySorted (ranked E records) (map snd l).
Proof.
  induction 1 as [|p l Hsorted IH Hp]; intros Hkeys; simpl.
  - constructor.
  - inversion Hkeys as [|? ? Hk Hrest]; subst. constructor; [auto|].
    rewrite Forall_map. rewrite Forall_forall in *.
    intros q Hq. exists (fst p), (fst q). repeat split; auto.
    + apply Hp. exact Hq.
    + intros Hla. apply latency_le_unreachable. rewrite <- Hla.
      apply Hp. exact Hq.
Qed.

(** C2, as the code has it: [get_urls] skips no mirror.  When a template of
    a mirror raises on substitution (the mirrors before it in the registry
    having given their urls), [get_urls] raises that exception and returns
    no list; and a list that [get_urls] returns has as many urls as the
    registry has mirrors, never fewer. *)
Theorem get_urls_raises_template_error :
  (forall (self : SourceRegistry.t) (w w1 : world)
          (pre post pre' : Dict.t ReleaseSource.t) (k : string)
          (src : ReleaseSource.t) (best : list string)
          (ts1 ts2 : list Template) (t : Template) (e : exn),
      SourceRegistry.registry self = pre ++ (k, src) :: post ->
      best_url_of_each E plain_version system architecture pre w
      = (Ok best, (pre', w1)) ->
      selected_templates src plain_version = ts1 ++ t :: ts2 ->
      Forall
        (fun t' =>
           exists url,
             substitute E t'
               (generate_info E plain_version system architecture) = Ok url)
        ts1 ->
      substitute E t (generate_info E plain_version system architecture)
      = Raise e ->
      SourceRegistry.get_urls E plain_version system architecture (self, w)
      = (Raise e,
         ({| SourceRegistry.configfile := SourceRegistry.configfile self;
             SourceRegistry.timeout := SourceRegistry.timeout self;
             SourceRegistry.registry := pre' ++ (k, src) :: post |}, w1)))
  /\ (forall (self : SourceRegistry.t) (w : world) (url_list : list string)
             (st' : SourceRegistry.t * world),
         SourceRegistry.get_urls E plain_version system architecture (self, w)
         = (Ok url_list, st') ->
         length url_list = length (SourceRegistry.registry self)).
Proof.
  split.
  - intros self w w1 pre post pre' k src best ts1 ts2 t e
      Hreg Hpre Hsel Hts1 Ht.
    rewrite get_urls_unfold, Hreg. unfold best_url_of_each in *.
    rewrite (for_values_of_app _ _ _ _ _ _ _ _ Hpre). simpl.
    unfold bind at 1.
    rewrite (get_url_template_error E _ _ _ src w1 ts1 ts2 t e Hsel Hts1 Ht).
    reflexivity.
  - intros self w url_list st'. apply get_urls_length.
Qed.

(** C7: a list that [get_urls] returns has one url for each mirror of the
    registry, the best urls of the mirrors in another order, and it is
    sorted by the merged latencies of the registry as it stands then: of two
    urls of the list, the host of the earlier one has a latency not above
    that of the later one, and an unreachable host comes after every host
    that answered. *)
Theorem get_urls_sorted_by_latency (self : SourceRegistry.t) (w : world)
    (url_list : list string) (st' : SourceRegistry.t * world) :
  SourceRegistry.get_urls E plain_version system architecture (self, w)
  = (Ok url_list, st') ->
  length url_list = length (SourceRegistry.registry self)
  /\ (exists best,
         best_url_of_each E plain_version system architecture
           (SourceRegistry.registry self) w
         = (Ok best, (SourceRegistry.registry (fst st'), snd st'))
         /\ Permutation best url_list)
  /\ (exists records,
         SourceRegistry.latencies E st' = (Ok records, st')
         /\ forall i j a b,
              i < j ->
              nth_error url_list i = Some a ->
              nth_error url_list j = Some b ->
              ranked E records a b).
Proof.
  intros H. split; [eapply get_urls_length; exact H|].
  rewrite get_urls_unfold in H.
  destruct (best_url_of_each _ _ _ _ _ w) as [[best|e] [reg' w']] eqn:Hbest;
    [|discriminate].
  set (self1 := {| SourceRegistry.configfile := SourceRegistry.configfile self;
                   SourceRegistry.timeout := SourceRegistry.timeout self;
                   SourceRegistry.registry := reg' |}) in *.
  assert (Hcached : Forall (fun kv => ReleaseSource._latencies (snd kv) <> [])
                      (SourceRegistry.registry self1)).
  { simpl. unfold best_url_of_each in Hbest.
    eapply (for_values_of_each _
              (fun src => ReleaseSource._latencies src <> []));
      [|exact Hbest].
    intros acc0 src w0 acc1 src' w2. unfold bind at 1.
    destruct (ReleaseSource.get_url E plain_version system architecture
                (src, w0)) as [[url|e] [src2 w3]] eqn:Hurl; [|discriminate].
    intros Hret. inversion Hret; subst.
    eapply get_url_fills_cache. exact Hurl. }
  destruct (registry_latencies_of_cached E _ Hcached) as [records Hrec].
  unfold list_sort, bind at 1 in H.
  destruct (list_comprehension _ best (self1, w')) as [[keys|e] s2] eqn:Hkeys;
    [|discriminate].
  apply list_comprehension_fixed in Hkeys.
  2:{ intros url _. unfold bind. rewrite Hrec. unfold getitem.
      destruct (Dict.get _ _); reflexivity. }
  destruct Hkeys as [-> Hkeys]. inversion H; subst. clear H.
  assert (Hlen : length keys = length best).
  { symmetry. eapply Forall2_length. exact Hkeys. }
  assert (Hknown : Forall2 (fun url k => latency_of E records url = Some k)
                     best keys).
  { eapply Forall2_impl; [|exact Hkeys]. intros url k. unfold bind.
    rewrite Hrec. unfold getitem, latency_of.
    destruct (Dict.get _ _) as [l|]; [|discriminate].
    intros Hk. inversion Hk. reflexivity. }
  split.
  - exists best. split; [reflexivity|].
    rewrite <- (map_snd_combine keys best Hlen) at 1.
    apply Permutation_map. apply sort_keyed_permutation.
  - exists records. split; [apply Hrec|].
    apply StronglySorted_nth_error. apply sorted_keys_ranked.
    + apply sort_keyed_sorted.
    + apply (Permutation_Forall (sort_keyed_permutation _)).
      apply Forall2_combine_keys. exact Hknown.
Qed.

End Candidates.

(** * The code on concrete mirrors *)

Import Reference.

(** The claim C1 fails on the code: [near] redirects to a url that answers
    200, and [query_download_url] returns the url of [near] that it probed,
    not the target that the redirect led to. *)
Lemma redirect_target_is_not_returned :
  fst (query_download_url redirecting release os cpu 3 probe_timeout
         two_mirrors)
  = Ok (Some near_url)
  /\ final_target redirecting (recursion_limit redirecting) near_url
       probe_timeout
       (snd (snd (SourceRegistry.get_urls redirecting release os cpu
                    two_mirrors)))
     = Some cdn_url
  /\ near_url <> cdn_url.
Proof.
  split; [vm_compute; reflexivity|].
  split; [vm_compute; reflexivity|].
  vm_compute. discriminate.
Qed.

Lemma returned_url_is_the_candidate_witness :
  let E := redirecting_to_far in
  let st1 := snd (SourceRegistry.get_urls E release os cpu two_mirrors) in
  let st' := snd (query_download_url E release os cpu 3 probe_timeout
                    two_mirrors) in
  let later := [far_url; near_url; far_url; near_url; far_url] in
  SourceRegistry.get_urls E release os cpu two_mirrors
  = (Ok [near_url; far_url], st1)
  /\ query_download_url E release os cpu 3 probe_timeout two_mirrors
     = (Ok (Some near_url), st')
  /\ passes [near_url; far_url] 3 = [] ++ near_url :: later
  /\ Forall (eq (Ok false)) (check_each (check E probe_timeout) [] st1)
  /\ check E probe_timeout near_url
       (state_after (check E probe_timeout) [] st1)
     = (Ok true, st')
  /\ final_target E (recursion_limit E) near_url probe_timeout (snd st1)
     = Some far_url
  /\ (exists pre post target,
         passes [near_url; far_url] 3 = pre ++ near_url :: post
         /\ Forall (eq (Ok false)) (check_each (check E probe_timeout) pre st1)
         /\ check E probe_timeout near_url
              (state_after (check E probe_timeout) pre st1)
            = (Ok true, st')
         /\ final_target E (recursion_limit E) near_url probe_timeout
              (snd (state_after (check E probe_timeout) pre st1))
            = Some target)
  /\ query_download_url E release os cpu 3 probe_timeout two_mirrors
     = (Ok (Some near_url), st').
Proof.
  intros E st1 st' later.
  assert (Hget : SourceRegistry.get_urls E release os cpu two_mirrors
                 = (Ok [near_url; far_url], st1))
    by (vm_compute; reflexivity).
  assert (Hrun : query_download_url E release os cpu 3 probe_timeout
                   two_mirrors = (Ok (Some near_url), st'))
    by (vm_compute; reflexivity).
  assert (Hsplit : passes [near_url; far_url] 3 = [] ++ near_url :: later)
    by reflexivity.
  assert (Hpre : Forall (eq (Ok false))
                   (check_each (check E probe_timeout) [] st1))
    by constructor.
  assert (Hcheck : check E probe_timeout near_url
                     (state_after (check E probe_timeout) [] st1)
                   = (Ok true, st'))
    by (vm_compute; reflexivity).
  assert (Htarget : final_target E (recursion_limit E) near_url probe_timeout
                      (snd st1) = Some far_url)
    by (vm_compute; reflexivity).
  destruct (returned_url_is_the_candidate E release os cpu 3 probe_timeout
              two_mirrors st1 [near_url; far_url] Hget)
    as [Hreturned Hfirst].
  split; [exact Hget|]. split; [exact Hrun|]. split; [exact Hsplit|].
  split; [exact Hpre|]. split; [exact Hcheck|]. split; [exact Htarget|].
  split.
  - exact (Hreturned near_url st' Hrun).
  - exact (Hfirst [] later near_url st' Hsplit Hpre Hcheck).
Defined.

(** The claim C2 fails on the code: with the mirror [broken] between [near]
    and [far], [get_urls] raises the [KeyError] of the missing placeholder,
    although the two other mirrors alone give two candidates. *)
Lemma broken_mirror_is_not_skipped :
  fst (SourceRegistry.get_urls silent release os cpu three_mirrors)
  = Raise (KeyError "build")
  /\ fst (SourceRegistry.get_urls silent release os cpu
            (registry_of [near; far], []))
     = Ok [near_url; far_url].
Proof. split; vm_compute; reflexivity. Qed.

Lemma get_urls_raises_template_error_witness :
  let near' := fst (snd (best_url_of_each silent release os cpu
                           [("near", near)] [])) in
  let w1 := snd (snd (best_url_of_each silent release os cpu
                        [("near", near)] [])) in
  let t := {| template :=
                "https://broken.example/$sys/$arch/$build/julia-$version.tar.gz"
           |} in
  SourceRegistry.registry (fst three_mirrors)
  = [("near", near)] ++ ("broken", broken) :: [("far", far)]
  /\ best_url_of_each silent release os cpu [("near", near)] []
     = (Ok [near_url], (near', w1))
  /\ selected_templates broken release = [] ++ t :: []
  /\ substitute silent t (generate_info silent release os cpu)
     = Raise (KeyError "build")
  /\ SourceRegistry.get_urls silent release os cpu three_mirrors
     = (Raise (KeyError "build"),
        ({| SourceRegistry.configfile :=
              SourceRegistry.configfile (fst three_mirrors);
            SourceRegistry.timeout :=
              SourceRegistry.timeout (fst three_mirrors);
            SourceRegistry.registry :=
              near' ++ ("broken", broken) :: [("far", far)] |}, w1))
  /\ length [near_url; far_url]
     = length (SourceRegistry.registry (registry_of [near; far])).
Proof.
  intros near' w1 t.
  assert (Hreg : SourceRegistry.registry (fst three_mirrors)
                 = [("near", near)] ++ ("broken", broken) :: [("far", far)])
    by reflexivity.
  assert (Hpre : best_url_of_each silent release os cpu [("near", near)] []
                 = (Ok [near_url], (near', w1)))
    by (vm_compute; reflexivity).
  assert (Hsel : selected_templates broken release = [] ++ t :: [])
    by reflexivity.
  assert (Ht : substitute silent t (generate_info silent release os cpu)
               = Raise (KeyError "build"))
    by (vm_compute; reflexivity).
  assert (Hok : SourceRegistry.get_urls silent release os cpu
                  (registry_of [near; far], [])
                = (Ok [near_url; far_url],
                   snd (SourceRegistry.get_urls silent release os cpu
                          (registry_of [near; far], []))))
    by (vm_compute; reflexivity).
  destruct (get_urls_raises_template_error silent release os cpu)
    as [Hraise Hlength].
  split; [exact Hreg|]. split; [exact Hpre|]. split; [exact Hsel|].
  split; [exact Ht|]. split.
  - exact (Hraise (fst three_mirrors) [] w1 [("near", near)] [("far", far)]
             near' "broken" broken [near_url] [] [] t (KeyError "build")
             Hreg Hpre Hsel (Forall_nil _) Ht).
  - exact (Hlength _ _ _ _ Hok).
Defined.

(** The claim C3 fails on the code: [near] answers 302 without a
    [Location] and [far] does not answer, so that no check of the three
    passes returns [True]; yet [query_download_url] raises [KeyError] after
    the one check of [near], it does not make the six checks and return
    [None]. *)
Lemma raising_check_is_not_none :
  let st1 := snd (SourceRegistry.get_urls bare_redirect release os cpu
                    two_mirrors) in
  fst (SourceRegistry.get_urls bare_redirect release os cpu two_mirrors)
  = Ok [near_url; far_url]
  /\ Forall (fun outcome => outcome <> Ok true)
       (check_each (check bare_redirect probe_timeout)
          (passes [near_url; far_url] 3) st1)
  /\ fst (query_download_url bare_redirect release os cpu 3 probe_timeout
            two_mirrors)
     = Raise (KeyError "Location")
  /\ fst (query_download_url bare_redirect release os cpu 3 probe_timeout
            two_mirrors)
     <> Ok None
  /\ snd (snd (query_download_url_counted bare_redirect release os cpu 3
                 probe_timeout (two_mirrors, [])))
     = [near_url]
  /\ (3 * Z.of_nat (length [near_url; far_url]) <> 1)%Z.
Proof.
  intros st1.
  split; [vm_compute; reflexivity|].
  split; [vm_compute; repeat constructor; discriminate|].
  split; [vm_compute; reflexivity|].
  split; [vm_compute; discriminate|].
  split; [vm_compute; reflexivity|].
  vm_compute. discriminate.
Qed.

Lemma all_unavailable_returns_none_witness :
  let st1 := snd (SourceRegistry.get_urls silent release os cpu two_mirrors) in
  SourceRegistry.get_urls silent release os cpu two_mirrors
  = (Ok [near_url; far_url], st1)
  /\ Forall (eq (Ok false))
       (check_each (check silent probe_timeout)
          (passes [near_url; far_url] 3) st1)
  /\ exists st2,
       query_download_url silent release os cpu 3 probe_timeout two_mirrors
       = (Ok None, st2)
       /\ query_download_url_counted silent release os cpu 3 probe_timeout
            (two_mirrors, [])
          = (Ok None, (st2, [] ++ passes [near_url; far_url] 3))
       /\ passes [near_url; far_url] 3
          = concat (List.repeat [near_url; far_url] (Z.to_nat 3))
       /\ Z.of_nat (length (passes [near_url; far_url] 3))
          = (Z.max 0 3 * Z.of_nat (length [near_url; far_url]))%Z.
Proof.
  intros st1.
  assert (Hget : SourceRegistry.get_urls silent release os cpu two_mirrors
                 = (Ok [near_url; far_url], st1))
    by (vm_compute; reflexivity).
  assert (Hall : Forall (eq (Ok false))
                   (check_each (check silent probe_timeout)
                      (passes [near_url; far_url] 3) st1))
    by (vm_compute; repeat constructor).
  split; [exact Hget|]. split; [exact Hall|].
  exact (all_unavailable_returns_none silent release os cpu 3 probe_timeout
           two_mirrors st1 [] [near_url; far_url] Hget Hall).
Defined.

Lemma stops_at_first_available_witness :
  let st1 := snd (SourceRegistry.get_urls far_first release os cpu
                    two_mirrors) in
  let st2 := snd (query_download_url far_first release os cpu 3 probe_timeout
                    two_mirrors) in
  let later := [far_url; near_url; far_url; near_url] in
  let best1 := snd (SourceRegistry.get_urls redirecting_to_far release os cpu
                      two_mirrors) in
  let best2 := snd (query_download_url redirecting_to_far release os cpu 3
                      probe_timeout two_mirrors) in
  let rest := [far_url; near_url; far_url; near_url; far_url] in
  (SourceRegistry.get_urls far_first release os cpu two_mirrors
   = (Ok [far_url; near_url], st1)
   /\ passes [far_url; near_url] 3 = [far_url] ++ near_url :: later
   /\ Forall (eq (Ok false))
        (check_each (check far_first probe_timeout) [far_url] st1)
   /\ check far_first probe_timeout near_url
        (state_after (check far_first probe_timeout) [far_url] st1)
      = (Ok true, st2)
   /\ (query_download_url far_first release os cpu 3 probe_timeout
         two_mirrors
       = (Ok (Some near_url), st2)
       /\ query_download_url_counted far_first release os cpu 3
            probe_timeout (two_mirrors, [])
          = (Ok (Some near_url), (st2, [] ++ [far_url] ++ [near_url])))
   /\ exists pre post,
        passes [far_url; near_url] 3 = pre ++ post
        /\ query_download_url_counted far_first release os cpu 3
             probe_timeout (two_mirrors, [])
           = (Ok (Some near_url), (st2, [] ++ pre))
        /\ (forall url, Ok (Some near_url) = Ok (Some url) ->
              exists pre' s0,
                pre = pre' ++ [url]
                /\ Forall (eq (Ok false))
                     (check_each (check far_first probe_timeout) pre' st1)
                /\ check far_first probe_timeout url s0 = (Ok true, st2)))
  /\ (SourceRegistry.get_urls redirecting_to_far release os cpu two_mirrors
      = (Ok [near_url; far_url], best1)
      /\ passes [near_url; far_url] 3 = [] ++ near_url :: rest
      /\ Forall (eq (Ok false))
           (check_each (check redirecting_to_far probe_timeout) [] best1)
      /\ check redirecting_to_far probe_timeout near_url
           (state_after (check redirecting_to_far probe_timeout) [] best1)
         = (Ok true, best2)
      /\ query_download_url redirecting_to_far release os cpu 3
           probe_timeout two_mirrors
         = (Ok (Some near_url), best2)
      /\ query_download_url_counted redirecting_to_far release os cpu 3
           probe_timeout (two_mirrors, [])
         = (Ok (Some near_url), (best2, [] ++ [] ++ [near_url]))).
Proof.
  intros st1 st2 later best1 best2 rest.
  assert (Hget : SourceRegistry.get_urls far_first release os cpu two_mirrors
                 = (Ok [far_url; near_url], st1))
    by (vm_compute; reflexivity).
  assert (Hsplit : passes [far_url; near_url] 3
                   = [far_url] ++ near_url :: later)
    by reflexivity.
  assert (Hpre : Forall (eq (Ok false))
                   (check_each (check far_first probe_timeout) [far_url] st1))
    by (vm_compute; repeat constructor).
  assert (Hcheck : check far_first probe_timeout near_url
                     (state_after (check far_first probe_timeout) [far_url]
                        st1)
                   = (Ok true, st2))
    by (vm_compute; reflexivity).
  assert (Hget' : SourceRegistry.get_urls redirecting_to_far release os cpu
                    two_mirrors = (Ok [near_url; far_url], best1))
    by (vm_compute; reflexivity).
  assert (Hsplit' : passes [near_url; far_url] 3 = [] ++ near_url :: rest)
    by reflexivity.
  assert (Hpre' : Forall (eq (Ok false))
                    (check_each (check redirecting_to_far probe_timeout) []
                       best1))
    by constructor.
  assert (Hcheck' : check redirecting_to_far probe_timeout near_url
                      (state_after (check redirecting_to_far probe_timeout)
                         [] best1)
                    = (Ok true, best2))
    by (vm_compute; reflexivity).
  destruct (stops_at_first_available far_first release os cpu 3 probe_timeout
              two_mirrors st1 [far_url; near_url] Hget)
    as [Hprefix Hstop].
  pose proof (Hstop [] [far_url] later near_url st2 Hsplit Hpre Hcheck)
    as Hfound.
  pose proof (proj2 (stops_at_first_available redirecting_to_far release os
                       cpu 3 probe_timeout two_mirrors best1
                       [near_url; far_url] Hget')
                [] [] rest near_url best2 Hsplit' Hpre' Hcheck')
    as Hbest.
  split.
  - split; [exact Hget|]. split; [exact Hsplit|]. split; [exact Hpre|].
    split; [exact Hcheck|]. split; [exact Hfound|].
    exact (Hprefix [] (Ok (Some near_url)) st2 (proj1 Hfound)).
  - split; [exact Hget'|]. split; [exact Hsplit'|]. split; [exact Hpre'|].
    split; [exact Hcheck'|]. exact Hbest.
Defined.

(** The counter on that run: [far] was checked once, then [near], and
    nothing after it. *)
Example far_first_probes :
  query_download_url_counted far_first release os cpu 3 probe_timeout
    (two_mirrors, [])
  = (Ok (Some near_url),
     (snd (query_download_url far_first release os cpu 3 probe_timeout
             two_mirrors), [far_url; near_url])).
Proof. vm_compute. reflexivity. Qed.

(** The claim C5 fails on the code: a url that answers 500 is Available for
    [is_url_available]. *)
Lemma server_error_is_available :
  requests_head_answer failing_server [] near_url probe_timeout
  = Responded (answer 500 [])
  /\ fst (is_url_available failing_server 1000 near_url probe_timeout [])
     = Ok true
  /\ fst (is_url_available failing_server 1000 near_url probe_timeout [])
     <> Ok false.
Proof.
  split; [reflexivity|]. split; [vm_compute; reflexivity|].
  vm_compute. discriminate.
Qed.

Lemma other_status_is_available_witness :
  requests_head_answer failing_server [] near_url probe_timeout
  = Responded (answer 500 [])
  /\ (status_code (answer 500 []) / 100 <> 4)%Z
  /\ (status_code (answer 500 []) <> 301)%Z
  /\ (status_code (answer 500 []) <> 302)%Z
  /\ is_url_available failing_server 1000 near_url probe_timeout []
     = (Ok true,
        [Call_requests_head near_url probe_timeout
           (Responded (answer 500 []))]).
Proof.
  assert (Hr : requests_head_answer failing_server [] near_url probe_timeout
               = Responded (answer 500 [])) by reflexivity.
  assert (H4 : (status_code (answer 500 []) / 100 <> 4)%Z)
    by (vm_compute; discriminate).
  assert (H301 : (status_code (answer 500 []) <> 301)%Z)
    by (vm_compute; discriminate).
  assert (H302 : (status_code (answer 500 []) <> 302)%Z)
    by (vm_compute; discriminate).
  split; [exact Hr|]. split; [exact H4|]. split; [exact H301|].
  split; [exact H302|].
  exact (other_status_is_available failing_server 999 near_url probe_timeout
           [] (answer 500 []) Hr H4 H301 H302).
Defined.

(** The claim C6 fails on the code: a 307 that carries a [Location] ends the
    check with [True] after one request; the target, which answers 404, is
    not probed. *)
Lemma temporary_redirect_is_not_followed :
  requests_head_answer temporary_redirect [] near_url probe_timeout
  = Responded (answer 307 [("Location", cdn_url)])
  /\ is_url_available temporary_redirect 1000 near_url probe_timeout []
     = (Ok true,
        [Call_requests_head near_url probe_timeout
           (Responded (answer 307 [("Location", cdn_url)]))])
  /\ fst (is_url_available temporary_redirect 1000 cdn_url probe_timeout
            [Call_requests_head near_url probe_timeout
               (Responded (answer 307 [("Location", cdn_url)]))])
     = Ok false.
Proof. repeat split; vm_compute; reflexivity. Qed.

Lemma redirect_followed_on_301_302_witness :
  let moved := answer 301 [("Location", cdn_url)] in
  let temporary := answer 307 [("Location", cdn_url)] in
  (requests_head_answer redirecting [] near_url probe_timeout
   = Responded moved
   /\ (status_code moved = 301 \/ status_code moved = 302)%Z
   /\ Dict.get "Location" (headers moved) = Some cdn_url
   /\ is_url_available redirecting 1000 near_url probe_timeout []
      = is_url_available redirecting 999 cdn_url probe_timeout
          [Call_requests_head near_url probe_timeout (Responded moved)])
  /\ (requests_head_answer temporary_redirect [] near_url probe_timeout
      = Responded temporary
      /\ (status_code temporary / 100 = 3)%Z
      /\ (status_code temporary <> 301)%Z
      /\ (status_code temporary <> 302)%Z
      /\ is_url_available temporary_redirect 1000 near_url probe_timeout []
         = (Ok true,
            [Call_requests_head near_url probe_timeout
               (Responded temporary)])).
Proof.
  intros moved temporary.
  assert (Hmoved : requests_head_answer redirecting [] near_url probe_timeout
                   = Responded moved) by reflexivity.
  assert (Hstatus : (status_code moved = 301 \/ status_code moved = 302)%Z)
    by (left; reflexivity).
  assert (Hloc : Dict.get "Location" (headers moved) = Some cdn_url)
    by reflexivity.
  assert (Htemp : requests_head_answer temporary_redirect [] near_url
                    probe_timeout = Responded temporary) by reflexivity.
  assert (H3 : (status_code temporary / 100 = 3)%Z) by reflexivity.
  assert (H301 : (status_code temporary <> 301)%Z)
    by (vm_compute; discriminate).
  assert (H302 : (status_code temporary <> 302)%Z)
    by (vm_compute; discriminate).
  split.
  - split; [exact Hmoved|]. split; [exact Hstatus|]. split; [exact Hloc|].
    exact (proj1 (redirect_followed_on_301_302 redirecting 999 near_url
                    probe_timeout [] moved Hmoved) cdn_url Hstatus Hloc).
  - split; [exact Htemp|]. split; [exact H3|]. split; [exact H301|].
    split; [exact H302|].
    exact (proj2 (redirect_followed_on_301_302 temporary_redirect 999 near_url
                    probe_timeout [] temporary Htemp) H3 H301 H302).
Defined.

Lemma get_urls_sorted_by_latency_witness :
  let st' := snd (SourceRegistry.get_urls redirecting release os cpu
                    two_mirrors) in
  SourceRegistry.get_urls redirecting release os cpu two_mirrors
  = (Ok [near_url; far_url], st')
  /\ length [near_url; far_url]
     = length (SourceRegistry.registry (fst two_mirrors))
  /\ (exists best,
         best_url_of_each redirecting release os cpu
           (SourceRegistry.registry (fst two_mirrors)) (snd two_mirrors)
         = (Ok best, (SourceRegistry.registry (fst st'), snd st'))
         /\ Permutation best [near_url; far_url])
  /\ (exists records,
         SourceRegistry.latencies redirecting st' = (Ok records, st')
         /\ forall i j a b,
              i < j ->
              nth_error [near_url; far_url] i = Some a ->
              nth_error [near_url; far_url] j = Some b ->
              ranked redirecting records a b).
Proof.
  intros st'.
  assert (Hget : SourceRegistry.get_urls redirecting release os cpu
                   two_mirrors = (Ok [near_url; far_url], st'))
    by (vm_compute; reflexivity).
  split; [exact Hget|].
  exact (get_urls_sorted_by_latency redirecting release os cpu
           (fst two_mirrors) (snd two_mirrors) [near_url; far_url] st' Hget).
Defined.


Lemma get_url_without_template_witness :
  selected_templates far "latest" = []
  /\ ReleaseSource.url_templates far <> []
  /\ ReleaseSource.get_url silent "latest" os cpu (far, [])
     = (Raise IndexError, (far, [])).
Proof.
  assert (Hsel : selected_templates far "latest" = []) by reflexivity.
  split; [exact Hsel|]. split; [discriminate|].
  exact (get_url_without_template silent far [] "latest" os cpu Hsel).
Defined.

Lemma redirect_without_location_witness :
  let found := answer 302 [] in
  let w' := [Call_requests_head near_url probe_timeout RequestException] in
  (requests_head_answer bare_redirect [] near_url probe_timeout
   = Responded found
   /\ (status_code found = 301 \/ status_code found = 302)%Z
   /\ Dict.get "Location" (headers found) = None
   /\ is_url_available bare_redirect 1000 near_url probe_timeout []
      = (Raise (KeyError "Location"),
         [Call_requests_head near_url probe_timeout (Responded found)]))
  /\ (is_url_available silent 1000 near_url probe_timeout [] = (Ok false, w')
      /\ exists last_url rest,
           w' = Call_requests_head last_url probe_timeout
                  (requests_head_answer silent rest last_url probe_timeout)
                :: rest
           /\ (requests_head_answer silent rest last_url probe_timeout
               = RequestException
               \/ exists r,
                   requests_head_answer silent rest last_url probe_timeout
                   = Responded r
                   /\ (status_code r / 100 = 4)%Z)).
Proof.
  intros found w'.
  assert (Hfound : requests_head_answer bare_redirect [] near_url
                     probe_timeout = Responded found) by reflexivity.
  assert (Hstatus : (status_code found = 301 \/ status_code found = 302)%Z)
    by (right; reflexivity).
  assert (Hloc : Dict.get "Location" (headers found) = None) by reflexivity.
  assert (Hfalse : is_url_available silent 1000 near_url probe_timeout []
                   = (Ok false, w')) by (vm_compute; reflexivity).
  split.
  - split; [exact Hfound|]. split; [exact Hstatus|]. split; [exact Hloc|].
    exact (proj1 (redirect_without_location bare_redirect probe_timeout)
             999 near_url [] found Hfound Hstatus Hloc).
  - split; [exact Hfalse|].
    exact (proj2 (redirect_without_location silent probe_timeout)
             1000 near_url [] w' Hfalse).
Defined.

(** * Further properties of the code *)

(** ** The requests of the availability check *)

Section Requests.
Variable E : externals.
Variable timeout : Q.

(** The calls that [is_url_available] adds. *)
Lemma is_url_available_heads (frames : nat) (url : string)
    (w w' : world) (r : result bool) :
  is_url_available E frames url timeout w = (r, w') ->
  exists heads,
    w' = heads ++ w
    /\ length heads <= frames
    /\ (0 < frames -> 0 < length heads)
    /\ Forall (is_head_call timeout) heads.
Proof.
  revert url w. induction frames as [|frames IH]; intros url w H.
  - inversion H; subst. exists []. repeat split; auto.
  - rewrite is_url_available_step in H. cbv zeta in H.
    set (c := Call_requests_head url timeout
                (requests_head_answer E w url timeout)) in *.
    assert (Hc : is_head_call timeout c) by (eexists; eexists; reflexivity).
    assert (Hone : forall r0, (r0, c :: w) = (r, w') ->
              exists heads,
                w' = heads ++ w /\ length heads <= S frames
                /\ (0 < S frames -> 0 < length heads)
                /\ Forall (is_head_call timeout) heads).
    { intros r0 H0. inversion H0; subst. exists [c]. simpl.
      repeat split; auto; lia. }
    destruct (requests_head_answer E w url timeout) as [resp|]; [|eauto].
    destruct (status_code resp / 100 =? 4)%Z; [eauto|].
    destruct ((status_code resp =? 301) || (status_code resp =? 302))%Z;
      [|eauto].
    destruct (Dict.get "Location" (headers resp)) as [new_url|]; [|eauto].
    destruct (IH _ _ H) as (heads & -> & Hlen & _ & Hall).
    exists (heads ++ [c]). rewrite <- app_assoc. simpl.
    rewrite length_app. simpl. repeat split; auto; try lia.
    apply Forall_app. split; auto.
Qed.

(** X1: whatever it returns or raises, [is_url_available] only adds calls
    of [requests.head] to the calls made, all with the timeout it was
    given; it makes at most as many as the interpreter grants frames, and
    at least one when it is granted a frame. *)
Theorem is_url_available_requests (frames : nat) (url : string)
    (w w' : world) (r : result bool) :
  is_url_available E frames url timeout w = (r, w') ->
  exists heads,
    w' = heads ++ w
    /\ length heads <= frames
    /\ (0 < frames -> 0 < length heads)
    /\ Forall (is_head_call timeout) heads.
Proof.
  intros H. destruct (is_url_available_heads _ _ _ _ _ H)
    as (heads & Hw & Hlen & Hpos & Hall).
  exists heads. repeat split; assumption.
Qed.

(** X2: among urls that always answer with a 301 or a 302 leading to one
    of them again, [is_url_available] never returns: it raises
    [RecursionError], after one request for each frame it was granted. *)
Theorem redirect_loop_raises (looping : string -> Prop) :
  (forall url w,
      looping url ->
      exists r target,
        requests_head_answer E w url timeout = Responded r
        /\ redirects_to r target
        /\ looping target) ->
  forall frames url w,
    looping url ->
    exists heads,
      is_url_available E frames url timeout w
      = (Raise RecursionError, heads ++ w)
      /\ length heads = frames.
Proof.
  intros Hloop. induction frames as [|frames IH]; intros url w Hurl.
  - exists []. split; reflexivity.
  - rewrite is_url_available_step. cbv zeta.
    destruct (Hloop url w Hurl) as (r & target & Hr & [Hs Hloc] & Htarget).
    rewrite Hr. destruct (redirect_status _ Hs) as [-> ->]. rewrite Hloc.
    destruct (IH target (Call_requests_head url timeout (Responded r) :: w)
                Htarget) as (heads & Hrun & Hlen).
    exists (heads ++ [Call_requests_head url timeout (Responded r)]).
    rewrite Hrun, <- app_assoc, length_app. simpl. split; [reflexivity|lia].
Qed.

End Requests.

(** ** Ends of the resolution *)

Section ResolutionEnds.
Variable E : externals.
Variables version system arch : string.
Variable max_try : Z.
Variable timeout : Q.

Lemma passes_nil (url_list : list string) :
  (max_try <= 0)%Z \/ url_list = [] -> passes url_list max_try = [].
Proof.
  unfold passes, chain_from_iterable, repeat. intros [H | ->].
  - replace (Z.to_nat max_try) with 0 by lia. reflexivity.
  - induction (Z.to_nat max_try) as [|n IH]; simpl; auto.
Qed.

(** X3: when [max_try] is zero or negative, or when the registry gives no
    candidate, [query_download_url] returns [None] in the state that
    [get_urls] left: no url is checked. *)
Theorem no_pass_returns_none (st st1 : SourceRegistry.t * world)
    (url_list : list string) :
  SourceRegistry.get_urls E version system arch st = (Ok url_list, st1) ->
  (max_try <= 0)%Z \/ url_list = [] ->
  query_download_url E version system arch max_try timeout st = (Ok None, st1)
  /\ query_download_url_counted E version system arch max_try timeout
       (st, [])
     = (Ok None, (st1, [])).
Proof.
  intros Hget Hnone.
  rewrite (query_download_url_after_get_urls _ _ _ _ _ _ _ _ _ Hget).
  rewrite (query_download_url_counted_after_get_urls
             _ _ _ _ _ _ _ _ _ _ Hget).
  rewrite (passes_nil _ Hnone). split; reflexivity.
Qed.

Lemma first_such_that_raises {S : Type} (probe : string -> M S bool)
    (pre post : list string) (url : string) (s s' : S) (e : exn) :
  Forall (eq (Ok false)) (check_each probe pre s) ->
  probe url (state_after probe pre s) = (Raise e, s') ->
  first_such_that probe (pre ++ url :: post) s = (Raise e, s').
Proof.
  revert s. induction pre as [|x pre IH]; intros s Hpre Hurl; simpl in *.
  - unfold bind. rewrite Hurl. reflexivity.
  - unfold bind. destruct (probe x s) as [r s1].
    inversion Hpre as [|? ? Hr Hrest]; subst. simpl in Hurl. auto.
Qed.

(** X4: an exception of a check ends the resolution: when the checks before
    it returned [False] and the check of a url raises, for a redirect
    without [Location] or for redirects without end, [query_download_url]
    raises the same exception and the urls after it are not checked. *)
Theorem raising_check_ends_resolution (st st1 st2 : SourceRegistry.t * world)
    (url_list pre post : list string) (url : string) (e : exn) :
  SourceRegistry.get_urls E version system arch st = (Ok url_list, st1) ->
  passes url_list max_try = pre ++ url :: post ->
  Forall (eq (Ok false)) (check_each (check E timeout) pre st1) ->
  check E timeout url (state_after (check E timeout) pre st1)
  = (Raise e, st2) ->
  query_download_url E version system arch max_try timeout st
  = (Raise e, st2).
Proof.
  intros Hget Hsplit Hpre Hurl.
  rewrite (query_download_url_after_get_urls _ _ _ _ _ _ _ _ _ Hget), Hsplit.
  apply first_such_that_raises; assumption.
Qed.

(** X5: a mirror whose template raises on substitution ends the whole
    resolution: [query_download_url] raises the exception of the template
    (the mirrors before it in the registry having given their urls), and no
    url is checked, whatever the other mirrors would have offered. *)
Theorem template_error_ends_resolution (self : SourceRegistry.t)
    (w w1 : world) (pre post pre' : Dict.t ReleaseSource.t) (k : string)
    (src : ReleaseSource.t) (best : list string) (ts1 ts2 : list Template)
    (t : Template) (e : exn) :
  SourceRegistry.registry self = pre ++ (k, src) :: post ->
  best_url_of_each E version system arch pre w = (Ok best, (pre', w1)) ->
  selected_templates src version = ts1 ++ t :: ts2 ->
  Forall
    (fun t' =>
       exists url,
         substitute E t' (generate_info E version system arch) = Ok url)
    ts1 ->
  substitute E t (generate_info E version system arch) = Raise e ->
  exists self',
    query_download_url E version system arch max_try timeout (self, w)
    = (Raise e, (self', w1))
    /\ query_download_url_counted E version system arch max_try timeout
         ((self, w), [])
       = (Raise e, ((self', w1), [])).
Proof.
  intros Hreg Hpre Hsel Hts1 Ht.
  assert (Hget : exists self',
             SourceRegistry.get_urls E version system arch (self, w)
             = (Raise e, (self', w1))).
  { rewrite get_urls_unfold, Hreg. unfold best_url_of_each in *.
    rewrite (for_values_of_app _ _ _ _ _ _ _ _ Hpre). simpl.
    unfold bind at 1.
    rewrite (get_url_template_error E _ _ _ src w1 ts1 ts2 t e Hsel Hts1 Ht).
    eexists. reflexivity. }
  destruct Hget as [self' Hget]. exists self'.
  unfold query_download_url, query_download_url_counted, bind, on_fst.
  simpl. rewrite Hget. split; reflexivity.
Qed.

Lemma first_such_that_check_registry (urls : list string)
    (s s' : SourceRegistry.t * world) (r : result (option string)) :
  first_such_that (check E timeout) urls s = (r, s') -> fst s' = fst s.
Proof.
  revert s. induction urls as [|url urls IH]; intros s H; simpl in H.
  - inversion H; subst. reflexivity.
  - unfold bind, check, on_snd in H.
    destruct (is_url_available E (recursion_limit E) url timeout (snd s))
      as [[[|]|e] w1]; try (inversion H; subst; reflexivity).
    apply IH in H. exact H.
Qed.

(** X6: the checks do not touch [default_registry]: the registry that
    [query_download_url] leaves is the one that [get_urls] left, whether a
    url was found, none was, or a check raised. *)
Theorem checks_leave_registry (st st1 st2 : SourceRegistry.t * world)
    (url_list : list string) (r : result (option string)) :
  SourceRegistry.get_urls E version system arch st = (Ok url_list, st1) ->
  query_download_url E version system arch max_try timeout st = (r, st2) ->
  fst st2 = fst st1.
Proof.
  intros Hget Hrun.
  rewrite (query_download_url_after_get_urls _ _ _ _ _ _ _ _ _ Hget) in Hrun.
  eapply first_such_that_check_registry. exact Hrun.
Qed.

End ResolutionEnds.

(** ** What the methods leave of a mirror and of the registry *)

Lemma same_mirror_refl (a : ReleaseSource.t) : same_mirror a a.
Proof. repeat split. Qed.

Lemma same_mirror_trans (a b c : ReleaseSource.t) :
  same_mirror a b -> same_mirror b c -> same_mirror a c.
Proof.
  intros (H1 & H2 & H3 & H4) (H5 & H6 & H7 & H8).
  repeat split; congruence.
Qed.

Lemma same_mirrors_refl (reg : Dict.t ReleaseSource.t) : same_mirrors reg reg.
Proof.
  induction reg as [|kv reg IH]; constructor; auto.
  split; [reflexivity | apply same_mirror_refl].
Qed.

Lemma same_mirrors_trans (a b c : Dict.t ReleaseSource.t) :
  same_mirrors a b -> same_mirrors b c -> same_mirrors a c.
Proof.
  intros Hab. revert c. induction Hab as [|x y a b [Hk Hm] _ IH]; intros c Hbc.
  - inversion Hbc; subst. constructor.
  - inversion Hbc as [|? z ? c' [Hk' Hm'] Hrest]; subst. constructor.
    + split; [congruence | eapply same_mirror_trans; eauto].
    + apply IH. exact Hrest.
Qed.

Section Kept.
Variable E : externals.
Variables plain_version system architecture : string.

Lemma latencies_same_mirror (src src' : ReleaseSource.t) (w w' : world)
    (r : result (Dict.t latency)) :
  ReleaseSource.latencies E (src, w) = (r, (src', w')) ->
  same_mirror src src'.
Proof.
  destruct (ReleaseSource._latencies src) as [|kv rest] eqn:Hc.
  - rewrite (latencies_fresh _ _ _ Hc).
    destruct (ReleaseSource.measured_latencies E src w) as [[d|e] w0];
      intros H; inversion H; subst; repeat split.
  - rewrite latencies_cached by (rewrite Hc; discriminate).
    intros H. inversion H; subst. apply same_mirror_refl.
Qed.

Lemma substituted_urls_same_mirror (src : ReleaseSource.t)
    (ts : list Template) (s s' : ReleaseSource.t * world)
    (r : result (list string)) :
  same_mirror src (fst s) ->
  list_comprehension (substituted E plain_version system architecture) ts s
  = (r, s') ->
  same_mirror src (fst s').
Proof.
  intros Hs H.
  eapply (list_comprehension_invariant (fun s0 => same_mirror src (fst s0)));
    [| exact Hs | exact H].
  intros t s0 r0 s2 Hs0 Hf.
  pose proof (substituted_fixed E plain_version system architecture t s0)
    as Hfix.
  rewrite Hf in Hfix. simpl in Hfix. subst. exact Hs0.
Qed.

Lemma latency_keys_same_mirror (src : ReleaseSource.t) (urls : list string)
    (s s' : ReleaseSource.t * world) (r : result (list latency)) :
  same_mirror src (fst s) ->
  list_comprehension (latency_key E) urls s = (r, s') ->
  same_mirror src (fst s').
Proof.
  intros Hs H.
  eapply (list_comprehension_invariant (fun s0 => same_mirror src (fst s0)));
    [| exact Hs | exact H].
  intros url [src0 w0] r0 [src2 w2] Hs0 Hf. simpl in *.
  unfold latency_key, bind in Hf.
  destruct (ReleaseSource.latencies E (src0, w0))
    as [[l|e] [src3 w3]] eqn:Hl; apply latencies_same_mirror in Hl.
  - unfold getitem in Hf.
    destruct (Dict.get _ l); inversion Hf; subst;
      eapply same_mirror_trans; eauto.
  - inversion Hf; subst. eapply same_mirror_trans; eauto.
Qed.

Lemma get_url_same_mirror (src src' : ReleaseSource.t) (w w' : world)
    (r : result string) :
  ReleaseSource.get_url E plain_version system architecture (src, w)
  = (r, (src', w')) ->
  same_mirror src src'.
Proof.
  rewrite get_url_unfold. unfold bind at 1.
  destruct (list_comprehension _ _ (src, w)) as [[urls|e] s1] eqn:Hsub;
    apply (substituted_urls_same_mirror src) in Hsub;
    try apply same_mirror_refl.
  - unfold bind, list_sort, bind.
    destruct (list_comprehension (latency_key E) urls s1)
      as [[keys|e] s2] eqn:Hkeys;
      apply (latency_keys_same_mirror src) in Hkeys; auto.
    + destruct (map snd _); intros H; inversion H; subst; exact Hkeys.
    + intros H. inversion H; subst. exact Hkeys.
  - intros H. inversion H; subst. exact Hsub.
Qed.

Lemma for_values_of_same_mirrors {A : Type}
    (body : A -> M (ReleaseSource.t * world) A)
    (reg reg' : Dict.t ReleaseSource.t) (acc : A) (r : result A)
    (w w' : world) :
  (forall acc0 src w0 r0 src' w1,
      body acc0 (src, w0) = (r0, (src', w1)) -> same_mirror src src') ->
  SourceRegistry.for_values_of body reg acc w = (r, (reg', w')) ->
  same_mirrors reg reg'.
Proof.
  intros Hbody. revert reg' acc w r.
  induction reg as [|[k src] reg IH]; intros reg' acc w r H; simpl in H.
  - inversion H; subst. constructor.
  - destruct (body acc (src, w)) as [[acc'|e] [src' w1]] eqn:Hb.
    + destruct (SourceRegistry.for_values_of body reg acc' w1)
        as [r2 [reg2 w2]] eqn:Hrest. simpl in H. inversion H; subst.
      constructor.
      * split; [reflexivity | eapply Hbody; exact Hb].
      * eapply IH. exact Hrest.
    + inversion H; subst. constructor.
      * split; [reflexivity | eapply Hbody; exact Hb].
      * apply same_mirrors_refl.
Qed.

Lemma for_values_kept {A : Type}
    (body : A -> M (ReleaseSource.t * world) A) (acc : A) (r : result A)
    (self : SourceRegistry.t) (s s' : SourceRegistry.t * world) :
  (forall acc0 src w0 r0 src' w1,
      body acc0 (src, w0) = (r0, (src', w1)) -> same_mirror src src') ->
  registry_kept self s ->
  SourceRegistry.for_values body acc s = (r, s') ->
  registry_kept self s'.
Proof.
  intros Hbody (Hc & Ht & Hm). unfold SourceRegistry.for_values.
  destruct (SourceRegistry.for_values_of body
              (SourceRegistry.registry (fst s)) acc (snd s))
    as [r1 [reg1 w1]] eqn:Hrun.
  intros H. inversion H; subst. simpl. repeat split; auto.
  eapply same_mirrors_trans; [exact Hm|].
  eapply for_values_of_same_mirrors; eauto.
Qed.

Lemma registry_latencies_kept (self : SourceRegistry.t)
    (s s' : SourceRegistry.t * world) (r : result (Dict.t latency)) :
  registry_kept self s -> SourceRegistry.latencies E s = (r, s') -> registry_kept self s'.
Proof.
  intros Hs. apply for_values_kept; auto.
  intros acc0 src w0 r0 src' w1. unfold bind.
  destruct (ReleaseSource.latencies E (src, w0)) as [[l|e] [src2 w2]] eqn:Hl;
    intros H; inversion H; subst; eapply latencies_same_mirror; eauto.
Qed.

Lemma registry_keys_kept (self : SourceRegistry.t) (urls : list string)
    (s s' : SourceRegistry.t * world) (r : result (list latency)) :
  registry_kept self s ->
  list_comprehension
    (fun url =>
       l <- SourceRegistry.latencies E ;;
       getitem l (netloc (urlparse E url)))
    urls s = (r, s') ->
  registry_kept self s'.
Proof.
  intros Hs H.
  eapply (list_comprehension_invariant (registry_kept self)); [| exact Hs | exact H].
  intros url s0 r0 s3 Hs0. unfold bind.
  destruct (SourceRegistry.latencies E s0) as [[l|e] s4] eqn:Hl.
  - unfold getitem. destruct (Dict.get _ l); intros H0;
      inversion H0; subst; eapply registry_latencies_kept; eauto.
  - intros H0; inversion H0; subst. eapply registry_latencies_kept; eauto.
Qed.

(** X7: whether it returns or raises, [get_urls] leaves the registry as it
    was loaded but for the caches of the mirrors: the same file name and
    timeout, the same keys in the same order, and under each key a mirror
    with the same name, templates and timeout; its length is the same. *)
Theorem get_urls_keeps_mirrors (self self' : SourceRegistry.t) (w w' : world)
    (r : result (list string)) :
  SourceRegistry.get_urls E plain_version system architecture (self, w)
  = (r, (self', w')) ->
  SourceRegistry.configfile self' = SourceRegistry.configfile self
  /\ SourceRegistry.timeout self' = SourceRegistry.timeout self
  /\ same_mirrors (SourceRegistry.registry self)
       (SourceRegistry.registry self')
  /\ SourceRegistry.__len__ self' = SourceRegistry.__len__ self.
Proof.
  intros H.
  assert (Hkept : registry_kept self (self', w')).
  { unfold SourceRegistry.get_urls, bind at 1 in H.
    destruct (SourceRegistry.for_values _ [] (self, w))
      as [r1 s1] eqn:Hbest.
    assert (Hs1 : registry_kept self s1).
    { eapply for_values_kept; [| |exact Hbest].
      - intros acc0 src w0 r0 src' w1. unfold bind.
        destruct (ReleaseSource.get_url E plain_version system architecture
                    (src, w0)) as [[url|e] [src2 w2]] eqn:Hu;
          intros H0; inversion H0; subst; eapply get_url_same_mirror; eauto.
      - repeat split. apply same_mirrors_refl. }
    destruct r1 as [best|e]; [|inversion H; subst; exact Hs1].
    unfold list_sort, bind in H.
    destruct (list_comprehension _ best s1) as [[keys|e] s2] eqn:Hkeys;
      apply (registry_keys_kept self) in Hkeys; auto;
      inversion H; subst; exact Hkeys. }
  destruct Hkept as (Hc & Ht & Hm). simpl in *. repeat split; auto.
  unfold SourceRegistry.__len__. symmetry. eapply Forall2_length. exact Hm.
Qed.

End Kept.

(** ** Keys and values of dictionaries *)

Lemma get_defined_in_keys {V : Type} (k : string) (d : Dict.t V) :
  Dict.get k d <> None <-> In k (Dict.keys d).
Proof.
  induction d as [|[k' v] d IH]; simpl.
  - split; [intros H; contradiction | intros []].
  - destruct (String.eqb_spec k k') as [->|Hne].
    + split; [intros _; left; reflexivity | intros _; discriminate].
    + rewrite IH. split; [intros H; right; exact H|].
      intros [H|H]; [congruence | exact H].
Qed.

Lemma setitem_keys_in {V : Type} (k : string) (v : V) (d : Dict.t V) :
  In k (Dict.keys d) -> Dict.keys (Dict.setitem k v d) = Dict.keys d.
Proof.
  induction d as [|[k' v'] d IH]; simpl; intros H.
  - contradiction.
  - destruct (String.eqb_spec k k') as [->|Hne]; simpl; [reflexivity|].
    f_equal. apply IH. destruct H as [H|H]; [congruence | exact H].
Qed.

Lemma setitem_keys_notin {V : Type} (k : string) (v : V) (d : Dict.t V) :
  ~ In k (Dict.keys d) -> Dict.keys (Dict.setitem k v d) = Dict.keys d ++ [k].
Proof.
  induction d as [|[k' v'] d IH]; simpl; intros H.
  - reflexivity.
  - destruct (String.eqb_spec k k') as [->|Hne]; simpl.
    + exfalso. apply H. left. reflexivity.
    + f_equal. apply IH. intros Hin. apply H. right. exact Hin.
Qed.

(** An assignment keeps the keys distinct, and adds at most one. *)
Lemma setitem_keys_NoDup {V : Type} (k : string) (v : V) (d : Dict.t V) :
  NoDup (Dict.keys d) ->
  NoDup (Dict.keys (Dict.setitem k v d))
  /\ length (Dict.keys (Dict.setitem k v d)) <= S (length (Dict.keys d)).
Proof.
  intros Hd. destruct (in_dec string_dec k (Dict.keys d)) as [Hin|Hout].
  - rewrite (setitem_keys_in k v d Hin). split; [exact Hd | lia].
  - rewrite (setitem_keys_notin k v d Hout). split.
    + apply NoDup_rev in Hd. rewrite <- (rev_involutive (Dict.keys d ++ [k])).
      apply NoDup_rev. rewrite rev_app_distr. simpl. constructor; auto.
      rewrite <- in_rev. exact Hout.
    + rewrite length_app. simpl. lia.
Qed.

Lemma update_defined {V : Type} (k : string) (d other : Dict.t V) :
  Dict.get k d <> None \/ Dict.get k other <> None ->
  Dict.get k (Dict.update d other) <> None.
Proof.
  unfold Dict.update. revert d.
  induction other as [|[k' v] other IH]; intros d H; simpl in *.
  - destruct H as [H|H]; [exact H | contradiction].
  - apply IH. destruct H as [H|H].
    + left. apply get_setitem_defined. exact H.
    + destruct (String.eqb_spec k k') as [->|Hne].
      * left. rewrite get_setitem_same. discriminate.
      * right. exact H.
Qed.

Section DictComprehension.
Context {S X V : Type}.
Variable entry : X -> M S (string * V).

(** A comprehension whose entries leave the state as it is leaves it as it
    is. *)
Lemma dict_comprehension_from_fixed (xs : list X) (acc : Dict.t V)
    (s s' : S) (r : result (Dict.t V)) :
  (forall x s0 r0 s1, entry x s0 = (r0, s1) -> s1 = s0) ->
  dict_comprehension_from entry xs acc s = (r, s') ->
  s' = s.
Proof.
  intros Hfix. revert acc. induction xs as [|x xs IH]; intros acc H;
    simpl in H.
  - inversion H; subst. reflexivity.
  - unfold bind in H. destruct (entry x s) as [[kv|e] s1] eqn:He;
      pose proof (Hfix _ _ _ _ He) as ->.
    + eapply IH. exact H.
    + inversion H; subst. reflexivity.
Qed.

(** The keys of a comprehension are distinct, and at most one for each
    element. *)
Lemma dict_comprehension_from_keys (xs : list X) (acc d : Dict.t V)
    (s s' : S) :
  NoDup (Dict.keys acc) ->
  dict_comprehension_from entry xs acc s = (Ok d, s') ->
  NoDup (Dict.keys d)
  /\ length (Dict.keys d) <= length (Dict.keys acc) + length xs.
Proof.
  revert acc s. induction xs as [|x xs IH]; intros acc s Hacc H; simpl in H.
  - inversion H; subst. split; [exact Hacc | lia].
  - unfold bind in H. destruct (entry x s) as [[kv|e] s1]; [|discriminate].
    destruct (setitem_keys_NoDup (fst kv) (snd kv) acc Hacc) as [Hnd Hlen].
    destruct (IH _ _ Hnd H) as [Hd Hl]. split; [exact Hd|]. simpl. lia.
Qed.

(** When every entry has the value that [g] gives to its key, so has every
    entry of the comprehension. *)
Lemma dict_comprehension_from_values (g : string -> V) (xs : list X)
    (acc d : Dict.t V) (s s' : S) :
  (forall x s0 kv s1, entry x s0 = (Ok kv, s1) -> snd kv = g (fst kv)) ->
  (forall k v, Dict.get k acc = Some v -> v = g k) ->
  dict_comprehension_from entry xs acc s = (Ok d, s') ->
  forall k v, Dict.get k d = Some v -> v = g k.
Proof.
  intros Hentry. revert acc s.
  induction xs as [|x xs IH]; intros acc s Hacc H; simpl in H.
  - inversion H; subst. exact Hacc.
  - unfold bind in H. destruct (entry x s) as [[kv|e] s1] eqn:He;
      [|discriminate].
    eapply IH; [|exact H]. intros k v.
    destruct (String.eqb_spec k (fst kv)) as [->|Hne].
    + rewrite get_setitem_same. intros Hv. inversion Hv; subst.
      eapply Hentry. exact He.
    + rewrite get_setitem_other by exact Hne. apply Hacc.
Qed.

(** The first element whose entry raises makes the comprehension raise. *)
Lemma dict_comprehension_from_raises (pre post : list X) (x : X)
    (acc : Dict.t V) (s : S) (e : exn) :
  Forall (fun x' => exists kv, entry x' s = (Ok kv, s)) pre ->
  entry x s = (Raise e, s) ->
  dict_comprehension_from entry (pre ++ x :: post) acc s = (Raise e, s).
Proof.
  intros Hpre Hx. revert acc.
  induction Hpre as [|x' pre [kv Hkv] _ IH]; intros acc; simpl.
  - unfold bind. rewrite Hx. reflexivity.
  - unfold bind in *. rewrite Hkv. apply IH.
Qed.

End DictComprehension.

(** ** The measurement of the latencies *)

Lemma probed_addresses_app (a b : list call) :
  probed_addresses (a ++ b) = probed_addresses a ++ probed_addresses b.
Proof.
  induction a as [|c a IH]; simpl; auto.
  destruct c; simpl; rewrite IH; reflexivity.
Qed.

Lemma dict_comprehension_from_cons {S X V : Type}
    (entry : X -> M S (string * V)) (x : X) (xs : list X) (acc : Dict.t V)
    (s : S) :
  dict_comprehension_from entry (x :: xs) acc s
  = match entry x s with
    | (Ok kv, s1) =>
        dict_comprehension_from entry xs
          (Dict.setitem (fst kv) (snd kv) acc) s1
    | (Raise e, s1) => (Raise e, s1)
    end.
Proof. reflexivity. Qed.

Lemma for_each_cons {S X A : Type} (body : A -> X -> M S A) (x : X)
    (xs : list X) (acc : A) (s : S) :
  for_each body (x :: xs) acc s
  = match body acc x s with
    | (Ok acc', s1) => for_each body xs acc' s1
    | (Raise e, s1) => (Raise e, s1)
    end.
Proof. reflexivity. Qed.

Section Measurement.
Variable E : externals.

(** The first comprehension of the measurement: one call of [query_ip] for
    each element of the list, in any state, and it does not raise. *)
Lemma name_lookups_run (hosts : list string) (acc : Dict.t string)
    (w : world) :
  exists d lookups,
    dict_comprehension_from
      (fun host => ip <- query_ip E host ;; ret (host, ip)) hosts acc w
    = (Ok d, lookups ++ w)
    /\ length lookups = length hosts
    /\ Forall is_query_ip_call lookups.
Proof.
  revert acc w. induction hosts as [|host hosts IH]; intros acc w.
  - exists acc, []. repeat split; auto.
  - rewrite dict_comprehension_from_cons.
    change ((ip <- query_ip E host ;; ret (host, ip)) w)
      with (@Ok (string * string) (host, query_ip_answer E w host),
            Call_query_ip host (query_ip_answer E w host) :: w).
    cbn [fst snd].
    destruct (IH (Dict.setitem host (query_ip_answer E w host) acc)
                (Call_query_ip host (query_ip_answer E w host) :: w))
      as (d & lookups & Hrun & Hlen & Hall).
    exists d, (lookups ++ [Call_query_ip host (query_ip_answer E w host)]).
    rewrite Hrun, <- app_assoc, length_app. simpl. repeat split; [lia|].
    apply Forall_app. split; auto. constructor; auto.
    eexists; eexists; reflexivity.
Qed.

(** The loop of the measurement: one call of [port_response_time] for each
    item, with the timeout of the mirror. *)
Lemma latency_probes_run (timeout : Q) (items : list (string * Z))
    (acc : Dict.t latency) (w : world) :
  exists latency_records probes,
    for_each
      (fun latency_records ip_port =>
         l <- port_response_time E (fst ip_port) (snd ip_port) timeout ;;
         ret (Dict.setitem (fst ip_port) l latency_records))
      items acc w
    = (Ok latency_records, probes ++ w)
    /\ length probes = length items
    /\ Forall (is_latency_call timeout) probes
    /\ probed_addresses probes = rev (map fst items).
Proof.
  revert acc w. induction items as [|[ip port] items IH]; intros acc w.
  - exists acc, []. repeat split; auto.
  - rewrite for_each_cons.
    set (c := Call_port_response_time ip port timeout
                (port_response_time_answer E w ip port timeout)).
    change ((l <- port_response_time E (fst (ip, port)) (snd (ip, port))
                    timeout ;;
             ret (Dict.setitem (fst (ip, port)) l acc)) w)
      with (Ok (Dict.setitem ip
                  (port_response_time_answer E w ip port timeout) acc),
            c :: w).
    destruct (IH (Dict.setitem ip
                    (port_response_time_answer E w ip port timeout) acc)
                (c :: w))
      as (lr & probes & Hrun & Hlen & Hall & Hips).
    exists lr, (probes ++ [c]).
    rewrite Hrun, <- app_assoc, length_app, probed_addresses_app, Hips.
    simpl. repeat split; [lia|].
    apply Forall_app. split; auto. constructor; auto.
    eexists; eexists; eexists; reflexivity.
Qed.

Lemma getitem_fixed {S V : Type} (d : Dict.t V) (k : string) (s s' : S)
    (r : result V) :
  getitem d k s = (r, s') -> s' = s.
Proof.
  unfold getitem. destruct (Dict.get k d); intros H; inversion H; reflexivity.
Qed.

(** The four stages of the measurement. *)
Lemma measured_latencies_stages (self : ReleaseSource.t) (w : world) :
  ReleaseSource.measured_latencies E self w
  = let url_list :=
      ReleaseSource.urls self ++ ReleaseSource.latest_urls self in
    let host_list := map (fun url => netloc (urlparse E url)) url_list in
    match dict_comprehension_from
            (fun host => ip <- query_ip E host ;; ret (host, ip))
            host_list Dict.empty w with
    | (Ok host_ip_records, w1) =>
        match dict_comprehension_from
                (fun url =>
                   ip <- getitem host_ip_records (netloc (urlparse E url)) ;;
                   port <- getitem (default_scheme_ports E)
                             (scheme (urlparse E url)) ;;
                   ret (ip, port))
                url_list Dict.empty w1 with
        | (Ok ip_port_records, w2) =>
            match for_each
                    (fun latency_records ip_port =>
                       l <- port_response_time E (fst ip_port) (snd ip_port)
                              (ReleaseSource.timeout self) ;;
                       ret (Dict.setitem (fst ip_port) l latency_records))
                    (Dict.items ip_port_records) Dict.empty w2 with
            | (Ok latency_records, w3) =>
                dict_comprehension_from
                  (fun host =>
                     ip <- getitem host_ip_records host ;;
                     l <- getitem latency_records ip ;;
                     ret (host, l))
                  host_list Dict.empty w3
            | (Raise e, w3) => (Raise e, w3)
            end
        | (Raise e, w2) => (Raise e, w2)
        end
    | (Raise e, w1) => (Raise e, w1)
    end.
Proof. reflexivity. Qed.

(** X8: a measurement that succeeds calls [query_ip] once for each url of
    the two template lists, then [port_response_time] with the timeout of
    the mirror and never twice for the same address: hosts that resolve to
    one address are probed once. *)
Theorem measurement_calls (src src' : ReleaseSource.t) (w w' : world)
    (d : Dict.t latency) :
  ReleaseSource._latencies src = Dict.empty ->
  ReleaseSource.latencies E (src, w) = (Ok d, (src', w')) ->
  exists probes lookups,
    w' = probes ++ lookups ++ w
    /\ Forall is_query_ip_call lookups
    /\ length lookups = length (all_hosts E src)
    /\ Forall (is_latency_call (ReleaseSource.timeout src)) probes
    /\ NoDup (probed_addresses probes)
    /\ length probes <= length (all_hosts E src).
Proof.
  intros Hfresh H. rewrite (latencies_fresh _ _ _ Hfresh) in H.
  destruct (ReleaseSource.measured_latencies E src w) as [[d0|e] w0] eqn:Hm;
    inversion H; subst d0 w0 src'; clear H.
  rewrite measured_latencies_stages in Hm. cbv zeta in Hm.
  set (url_list := ReleaseSource.urls src ++ ReleaseSource.latest_urls src)
    in *.
  destruct (name_lookups_run
              (map (fun url => netloc (urlparse E url)) url_list)
              Dict.empty w)
    as (hir & lookups & Hrun1 & Hlen1 & Hall1).
  rewrite Hrun1 in Hm.
  destruct (@dict_comprehension_from world string Z _ url_list Dict.empty
              (lookups ++ w))
    as [[ipr|e] w2] eqn:Hrun2; [|discriminate].
  pose proof Hrun2 as Hfix2.
  apply dict_comprehension_from_fixed in Hfix2.
  2:{ intros url s0 r0 s1. unfold bind.
      destruct (getitem hir _ s0) as [[ip|e] s2] eqn:H1;
        apply getitem_fixed in H1; subst s2.
      - destruct (getitem (default_scheme_ports E) _ s0) as [[port|e] s3]
          eqn:H2; apply getitem_fixed in H2; subst s3;
          intros H; inversion H; reflexivity.
      - intros H; inversion H; reflexivity. }
  subst w2.
  assert (Hempty : NoDup (Dict.keys (@Dict.empty Z))) by constructor.
  destruct (dict_comprehension_from_keys _ _ _ _ _ _ Hempty Hrun2)
    as [Hnodup Hkeys]. simpl in Hkeys.
  destruct (latency_probes_run (ReleaseSource.timeout src) (Dict.items ipr)
              Dict.empty (lookups ++ w))
    as (lr & probes & Hrun3 & Hlen3 & Hall3 & Hips).
  rewrite Hrun3 in Hm.
  apply dict_comprehension_from_fixed in Hm.
  2:{ intros host s0 r0 s1. unfold bind.
      destruct (getitem hir host s0) as [[ip|e] s2] eqn:H1;
        apply getitem_fixed in H1; subst s2.
      - destruct (getitem lr ip s0) as [[l|e] s3] eqn:H2;
          apply getitem_fixed in H2; subst s3;
          intros H; inversion H; reflexivity.
      - intros H; inversion H; reflexivity. }
  subst w'. exists probes, lookups.
  assert (Hhosts : length (all_hosts E src) = length url_list).
  { unfold all_hosts, ReleaseSource.hosts, ReleaseSource.latest_hosts.
    rewrite <- map_app, length_map. reflexivity. }
  rewrite length_map in Hlen1. unfold Dict.items, Dict.keys in *.
  rewrite length_map in Hkeys.
  repeat split; auto; try lia.
  rewrite Hips. apply NoDup_rev. exact Hnodup.
Qed.

(** X9: when [query_ip] gives a host the same address whenever it is asked,
    two hosts of a mirror with one address have one latency in the mapping
    that a measurement returns. *)
Theorem shared_address_same_latency (resolve : string -> string)
    (src src' : ReleaseSource.t) (w w' : world) (d : Dict.t latency)
    (host1 host2 : string) :
  (forall w0 host, query_ip_answer E w0 host = resolve host) ->
  ReleaseSource._latencies src = Dict.empty ->
  ReleaseSource.latencies E (src, w) = (Ok d, (src', w')) ->
  In host1 (all_hosts E src) ->
  In host2 (all_hosts E src) ->
  resolve host1 = resolve host2 ->
  Dict.get host1 d = Dict.get host2 d.
Proof.
  intros Hstatic Hfresh H Hin1 Hin2 Hsame.
  rewrite (latencies_fresh _ _ _ Hfresh) in H.
  destruct (ReleaseSource.measured_latencies E src w) as [[d0|e] w0] eqn:Hm;
    inversion H; subst d0 w0 src'; clear H.
  pose proof (measured_latencies_defined _ _ _ _ _ Hm) as Hdef.
  rewrite measured_latencies_stages in Hm. cbv zeta in Hm.
  destruct (@dict_comprehension_from world string string _ _ Dict.empty w)
    as [[hir|e] w1] eqn:Hrun1; [|discriminate].
  destruct (@dict_comprehension_from world string Z _ _ Dict.empty w1)
    as [[ipr|e] w2]; [|discriminate].
  destruct (for_each _ _ _ w2) as [[lr|e] w3]; [|discriminate].
  assert (Hhir : forall host ip, Dict.get host hir = Some ip ->
                                 ip = resolve host).
  { eapply (dict_comprehension_from_values _ resolve); [| |exact Hrun1].
    - intros host s0 kv s1. unfold bind, query_ip, ret. simpl.
      intros Hkv. inversion Hkv; subst. simpl. apply Hstatic.
    - intros k v Hk. discriminate. }
  set (g := fun host =>
              match Dict.get (resolve host) lr with
              | Some l => l
              | None => Unreachable
              end).
  assert (Hd : forall host l, Dict.get host d = Some l -> l = g host).
  { eapply (dict_comprehension_from_values _ g); [| |exact Hm].
    - intros host s0 kv s1. unfold bind, getitem.
      destruct (Dict.get host hir) as [ip|] eqn:Hip; simpl; [|discriminate].
      destruct (Dict.get ip lr) as [l|] eqn:Hl; simpl; [|discriminate].
      intros Hkv. inversion Hkv; subst. simpl. unfold g.
      rewrite <- (Hhir _ _ Hip), Hl. reflexivity.
    - intros k v Hk. discriminate. }
  pose proof (Hdef host1 Hin1) as H1. pose proof (Hdef host2 Hin2) as H2.
  destruct (Dict.get host1 d) as [l1|] eqn:E1; [|contradiction].
  destruct (Dict.get host2 d) as [l2|] eqn:E2; [|contradiction].
  rewrite (Hd _ _ E1), (Hd _ _ E2). unfold g. rewrite Hsame. reflexivity.
Qed.

End Measurement.

(** ** A scheme without a default port *)

Section UnknownScheme.
Variable E : externals.

(** X10: when a url of the templates has a scheme that
    [default_scheme_ports] does not know (the urls before it having known
    schemes), the access to the latencies of a mirror with an empty cache
    raises [KeyError] with that scheme.  It has then called [query_ip] for
    every url and [port_response_time] for none, and the cache is still
    empty: the next access starts again. *)
Theorem unknown_scheme_raises (src : ReleaseSource.t) (w : world)
    (pre post : list string) (url : string) :
  ReleaseSource._latencies src = Dict.empty ->
  ReleaseSource.urls src ++ ReleaseSource.latest_urls src
  = pre ++ url :: post ->
  Forall
    (fun u =>
       Dict.get (scheme (urlparse E u)) (default_scheme_ports E) <> None)
    pre ->
  Dict.get (scheme (urlparse E url)) (default_scheme_ports E) = None ->
  exists lookups,
    ReleaseSource.latencies E (src, w)
    = (Raise (KeyError (scheme (urlparse E url))), (src, lookups ++ w))
    /\ Forall is_query_ip_call lookups
    /\ length lookups = length (all_hosts E src).
Proof.
  intros Hfresh Hsplit Hpre Hurl. rewrite (latencies_fresh _ _ _ Hfresh).
  rewrite measured_latencies_stages. cbv zeta.
  destruct (name_lookups_run E
              (map (fun url => netloc (urlparse E url))
                 (ReleaseSource.urls src ++ ReleaseSource.latest_urls src))
              Dict.empty w)
    as (hir & lookups & Hrun1 & Hlen1 & Hall1).
  rewrite Hrun1.
  assert (Hhir : forall u,
             In u (ReleaseSource.urls src ++ ReleaseSource.latest_urls src) ->
             Dict.get (netloc (urlparse E u)) hir <> None).
  { intros u Hu.
    eapply (dict_comprehension_from_defined _ (fun host => host));
      [|exact Hrun1|].
    - intros host s0 kv s1. unfold bind, query_ip, ret. simpl.
      intros Hkv. inversion Hkv; subst. reflexivity.
    - right. rewrite map_id.
      apply (in_map (fun url => netloc (urlparse E url))). exact Hu. }
  exists lookups.
  assert (Hhosts : length (all_hosts E src)
                   = length (map (fun url => netloc (urlparse E url))
                               (ReleaseSource.urls src
                                ++ ReleaseSource.latest_urls src))).
  { unfold all_hosts, ReleaseSource.hosts, ReleaseSource.latest_hosts.
    rewrite <- map_app. reflexivity. }
  rewrite Hhosts. split; [|split; auto].
  rewrite Hsplit in Hhir. rewrite Hsplit.
  rewrite (dict_comprehension_from_raises _ pre post url Dict.empty
             (lookups ++ w) (KeyError (scheme (urlparse E url)))).
  - reflexivity.
  - rewrite Forall_forall in *. intros u Hu.
    pose proof (Hhir u (in_or_app _ _ _ (or_introl Hu))) as Hip.
    pose proof (Hpre u Hu) as Hport.
    unfold bind, getitem.
    destruct (Dict.get (netloc (urlparse E u)) hir) as [ip|];
      [|contradiction].
    destruct (Dict.get (scheme (urlparse E u)) (default_scheme_ports E))
      as [port|]; [|contradiction].
    eexists. reflexivity.
  - assert (Hip : Dict.get (netloc (urlparse E url)) hir <> None)
      by (apply Hhir, in_or_app; right; left; reflexivity).
    unfold bind, getitem.
    destruct (Dict.get (netloc (urlparse E url)) hir) as [ip|];
      [|contradiction].
    rewrite Hurl. reflexivity.
Qed.

End UnknownScheme.

(** ** The merged view *)

Section MergedView.
Variable E : externals.

Lemma merged_view_covers (reg reg' : Dict.t ReleaseSource.t)
    (acc records : Dict.t latency) (w w' : world) :
  SourceRegistry.for_values_of
    (fun records =>
       l <- ReleaseSource.latencies E ;;
       ret (Dict.update records l))
    reg acc w = (Ok records, (reg', w')) ->
  (forall host, Dict.get host acc <> None -> Dict.get host records <> None)
  /\ (forall k src' host,
         In (k, src') reg' ->
         Dict.get host (ReleaseSource._latencies src') <> None ->
         Dict.get host records <> None).
Proof.
  revert reg' acc w. induction reg as [|[k src] reg IH]; intros reg' acc w H;
    simpl in H.
  - inversion H; subst. split; [auto|]. intros k src' host [].
  - unfold bind at 1 in H.
    destruct (ReleaseSource.latencies E (src, w)) as [[l|e] [src1 w1]] eqn:Hl;
      [|discriminate].
    simpl in H.
    destruct (SourceRegistry.for_values_of _ reg (Dict.update acc l) w1)
      as [[r2|e] [reg2 w2]] eqn:Hrest; simpl in H; inversion H; subst.
    destruct (IH _ _ _ Hrest) as [Hacc Hreg].
    pose proof (latencies_returns E _ _ _ _ _ Hl) as ->.
    split.
    + intros host Hhost. apply Hacc. apply update_defined. left. exact Hhost.
    + intros k0 src' host [Hin|Hin] Hhost.
      * inversion Hin; subst. simpl in Hhost. apply Hacc.
        apply update_defined. right. exact Hhost.
      * eapply Hreg; eauto.
Qed.

(** X11: the merged view that [SourceRegistry.latencies] returns knows
    every host that the cache of a mirror of the registry knows then. *)
Theorem merged_view_covers_caches (self self' : SourceRegistry.t)
    (w w' : world) (records : Dict.t latency) (k host : string)
    (src' : ReleaseSource.t) :
  SourceRegistry.latencies E (self, w) = (Ok records, (self', w')) ->
  In (k, src') (SourceRegistry.registry self') ->
  Dict.get host (ReleaseSource._latencies src') <> None ->
  Dict.get host records <> None.
Proof.
  unfold SourceRegistry.latencies, SourceRegistry.for_values. simpl.
  destruct (SourceRegistry.for_values_of _ (SourceRegistry.registry self)
              Dict.empty w) as [r [reg' w1]] eqn:Hrun.
  intros H Hin Hhost. inversion H; subst. simpl in Hin.
  destruct (merged_view_covers _ _ _ _ _ _ Hrun) as [_ Hreg].
  eapply Hreg; eauto.
Qed.

End MergedView.

(** ** The head of the sorted list *)

(** The first element of the sorted list is the first of the least ones of
    the list: the elements before it have greater keys, those after it keys
    that are not smaller. *)
Lemma sort_keyed_head {A : Type} (l t : list (latency * A))
    (h : latency * A) :
  sort_keyed latency_lt l = h :: t ->
  exists pre post,
    l = pre ++ h :: post
    /\ Forall (fun p => latency_lt (fst h) (fst p) = true) pre
    /\ Forall (fun q => latency_le (fst h) (fst q)) post.
Proof.
  revert h t. induction l as [|x l IH]; intros h t H; simpl in H.
  - discriminate.
  - destruct (sort_keyed latency_lt l) as [|h' t'] eqn:Hsorted.
    + pose proof (Permutation_length (sort_keyed_permutation l)) as Hlen.
      rewrite Hsorted in Hlen. destruct l; [|discriminate].
      simpl in H. inversion H; subst. exists [], []. repeat split; auto.
    + destruct (IH _ _ eq_refl) as (pre & post & -> & Hpre & Hpost).
      simpl in H. destruct (latency_lt (fst h') (fst x)) eqn:Hlt.
      * inversion H; subst. exists (x :: pre), post. repeat split; auto.
      * inversion H; subst. exists [], (pre ++ h' :: post).
        repeat split; auto. apply Forall_app. split.
        -- eapply Forall_impl; [|exact Hpre]. intros p Hp.
           eapply latency_le_trans; [exact Hlt|].
           apply latency_lt_asym. exact Hp.
        -- constructor; [exact Hlt|].
           eapply Forall_impl; [|exact Hpost]. intros q Hq.
           eapply latency_le_trans; [exact Hlt | exact Hq].
Qed.

Lemma list_comprehension_of_Forall2 {S X A : Type} (f : X -> M S A)
    (xs : list X) (ys : list A) (s : S) :
  Forall2 (fun x y => f x s = (Ok y, s)) xs ys ->
  list_comprehension f xs s = (Ok ys, s).
Proof.
  induction 1 as [|x y xs ys Hxy _ IH]; simpl.
  - reflexivity.
  - unfold bind. rewrite Hxy, IH. reflexivity.
Qed.

(** ** The choice of [get_url] *)

Section Choice.
Variable E : externals.
Variables plain_version system architecture : string.

Lemma substituted_run (t : Template) (s : ReleaseSource.t * world) :
  substituted E plain_version system architecture t s
  = (substitute E t (generate_info E plain_version system architecture), s).
Proof.
  unfold substituted. destruct (substitute E t _); reflexivity.
Qed.

(** The urls of the templates do not depend on the state. *)
Lemma substituted_urls_anywhere (ts : list Template)
    (s s2 : ReleaseSource.t * world) (urls : list string) :
  list_comprehension (substituted E plain_version system architecture) ts s
  = (Ok urls, s) ->
  list_comprehension (substituted E plain_version system architecture) ts s2
  = (Ok urls, s2).
Proof.
  intros H. apply list_comprehension_fixed in H;
    [|intros; apply substituted_fixed].
  destruct H as [_ H]. apply list_comprehension_of_Forall2.
  eapply Forall2_impl; [|exact H]. intros t url. rewrite !substituted_run.
  intros Ht. inversion Ht. reflexivity.
Qed.

Lemma latency_key_of_cache (url : string) (src : ReleaseSource.t) (w : world)
    (k : latency) :
  ReleaseSource._latencies src <> [] ->
  (latency_key E url (src, w) = (Ok k, (src, w))
   <-> latency_of E (ReleaseSource._latencies src) url = Some k).
Proof.
  intros Hc. unfold latency_key, bind, latency_of.
  rewrite (latencies_cached E _ _ Hc). unfold getitem.
  destruct (Dict.get _ _) as [l|]; split; intros H; inversion H; reflexivity.
Qed.

(** What a run of [get_url] that returns has gone through: the urls of the
    selected templates, their keys, which are their latencies in the cache
    that the mirror then holds, and the sort that put the returned url
    first. *)
Lemma get_url_run (src src' : ReleaseSource.t) (w w' : world) (url : string) :
  ReleaseSource.get_url E plain_version system architecture (src, w)
  = (Ok url, (src', w')) ->
  exists urls keys rest,
    list_comprehension (substituted E plain_version system architecture)
      (selected_templates src plain_version) (src, w)
    = (Ok urls, (src, w))
    /\ Forall2
         (fun u k => latency_of E (ReleaseSource._latencies src') u = Some k)
         urls keys
    /\ ReleaseSource._latencies src' <> []
    /\ map snd (sort_keyed latency_lt (combine keys urls)) = url :: rest.
Proof.
  intros Hrun. pose proof (get_url_fills_cache _ _ _ _ _ _ _ _ _ Hrun) as Hc.
  rewrite get_url_unfold in Hrun. unfold bind at 1 in Hrun.
  destruct (list_comprehension _ _ (src, w)) as [[urls|e] s1] eqn:Hsub;
    [|discriminate].
  pose proof Hsub as Hfix. apply list_comprehension_fixed in Hfix;
    [|intros; apply substituted_fixed].
  destruct Hfix as [-> _]. unfold bind, list_sort, bind in Hrun.
  destruct (list_comprehension (latency_key E) urls (src, w))
    as [[keys|e] s2] eqn:Hkeys; [|discriminate].
  destruct (map snd (sort_keyed latency_lt (combine keys urls)))
    as [|url0 rest] eqn:Hsorted; [discriminate|].
  inversion Hrun; subst url0 s2. clear Hrun.
  exists urls, keys, rest. repeat split; auto.
  destruct urls as [|u urls'].
  - simpl in Hkeys. inversion Hkeys; subst. constructor.
  - simpl in Hkeys. unfold bind in Hkeys.
    destruct (latency_key E u (src, w)) as [[k|e] [src1 w1]] eqn:Hk;
      [|discriminate].
    destruct (list_comprehension (latency_key E) urls' (src1, w1))
      as [[ks|e] s3] eqn:Hrest; [|discriminate].
    inversion Hkeys; subst keys s3. clear Hkeys.
    assert (Hfirst : ReleaseSource._latencies src1 <> []
                     /\ latency_of E (ReleaseSource._latencies src1) u
                        = Some k).
    { unfold latency_key, bind in Hk.
      destruct (ReleaseSource.latencies E (src, w)) as [[l|e] [src2 w2]]
        eqn:Hl; [|discriminate].
      pose proof (latencies_returns E _ _ _ _ _ Hl) as ->.
      unfold getitem in Hk.
      destruct (Dict.get (netloc (urlparse E u)) l) as [k'|] eqn:Hget;
        [|discriminate].
      inversion Hk; subst. simpl. split.
      - apply (get_defined_nonempty (netloc (urlparse E u))). rewrite Hget.
        discriminate.
      - exact Hget. }
    destruct Hfirst as [Hc1 Hk1].
    apply list_comprehension_fixed in Hrest;
      [|intros; apply latency_key_cached; exact Hc1].
    destruct Hrest as [Heq Hrest]. inversion Heq; subst src1 w1.
    constructor; [exact Hk1|].
    eapply Forall2_impl; [|exact Hrest]. intros x y Hxy.
    apply (latency_key_of_cache x src' w' y Hc1). exact Hxy.
Qed.

(** X12: the url that [get_url] returns is the first of the least ones:
    among the urls of the selected templates, in the order of the
    templates, every url before it has a host with a strictly greater
    latency in the cache of the mirror, and every url after it a host with
    a latency that is not smaller. *)
Theorem get_url_first_of_least (src src' : ReleaseSource.t) (w w' : world)
    (url : string) :
  ReleaseSource.get_url E plain_version system architecture (src, w)
  = (Ok url, (src', w')) ->
  exists urls pre post l,
    list_comprehension (substituted E plain_version system architecture)
      (selected_templates src plain_version) (src, w)
    = (Ok urls, (src, w))
    /\ urls = pre ++ url :: post
    /\ latency_of E (ReleaseSource._latencies src') url = Some l
    /\ Forall
         (fun u =>
            exists lu,
              latency_of E (ReleaseSource._latencies src') u = Some lu
              /\ latency_lt l lu = true) pre
    /\ Forall
         (fun u =>
            exists lu,
              latency_of E (ReleaseSource._latencies src') u = Some lu
              /\ latency_le l lu) post.
Proof.
  intros Hrun.
  destruct (get_url_run _ _ _ _ _ Hrun)
    as (urls & keys & rest & Hsub & Hkeys & _ & Hsorted).
  assert (Hlen : length keys = length urls)
    by (symmetry; eapply Forall2_length; exact Hkeys).
  destruct (sort_keyed latency_lt (combine keys urls)) as [|h t] eqn:Hs;
    [discriminate|].
  simpl in Hsorted. inversion Hsorted as [[Hh Ht]]. clear Hsorted.
  destruct (sort_keyed_head _ _ _ Hs) as (ppre & ppost & Hsplit & Hpre & Hpost).
  pose proof (Forall2_combine_keys E _ _ _ Hkeys) as Hpairs.
  rewrite Hsplit in Hpairs. apply Forall_app in Hpairs.
  destruct Hpairs as [Hppre Hppost].
  inversion Hppost as [|? ? Hhk Hppost']; subst.
  exists urls, (map snd ppre), (map snd ppost), (fst h).
  repeat split; auto.
  - rewrite <- (map_snd_combine keys urls Hlen), Hsplit, map_app.
    reflexivity.
  - rewrite Forall_map. rewrite Forall_forall in *. intros p Hp.
    exists (fst p). split; auto.
  - rewrite Forall_map. rewrite Forall_forall in *. intros q Hq.
    exists (fst q). split; auto.
Qed.

(** A call of [get_url] after one that returned, on the mirror as that one
    left it, returns the same url and changes nothing, whatever calls were
    made in between. *)
Lemma get_url_again (src src' : ReleaseSource.t) (w w' w2 : world)
    (url : string) :
  ReleaseSource.get_url E plain_version system architecture (src, w)
  = (Ok url, (src', w')) ->
  ReleaseSource.get_url E plain_version system architecture (src', w2)
  = (Ok url, (src', w2)).
Proof.
  intros Hrun.
  destruct (get_url_run _ _ _ _ _ Hrun)
    as (urls & keys & rest & Hsub & Hkeys & Hc & Hsorted).
  pose proof (get_url_same_mirror _ _ _ _ _ _ _ _ _ Hrun)
    as (_ & Hstable & Hlatest & _).
  rewrite get_url_unfold. unfold bind at 1.
  assert (Hsel : selected_templates src' plain_version
                 = selected_templates src plain_version)
    by (unfold selected_templates; rewrite Hstable, Hlatest; reflexivity).
  rewrite Hsel, (substituted_urls_anywhere _ _ (src', w2) _ Hsub).
  unfold bind, list_sort, bind.
  rewrite (list_comprehension_of_Forall2 (latency_key E) urls keys (src', w2)).
  - rewrite Hsorted. reflexivity.
  - eapply Forall2_impl; [|exact Hkeys]. intros u k Huk.
    apply (latency_key_of_cache u src' w2 k Hc). exact Huk.
Qed.

End Choice.

(** ** A second request *)

Section Again.
Variable E : externals.
Variables plain_version system architecture : string.

Lemma best_url_of_each_again (reg reg' : Dict.t ReleaseSource.t)
    (acc best : list string) (w w' w2 : world) :
  SourceRegistry.for_values_of
    (fun url_list =>
       url <- ReleaseSource.get_url E plain_version system architecture ;;
       ret (url_list ++ [url]))
    reg acc w = (Ok best, (reg', w')) ->
  SourceRegistry.for_values_of
    (fun url_list =>
       url <- ReleaseSource.get_url E plain_version system architecture ;;
       ret (url_list ++ [url]))
    reg' acc w2 = (Ok best, (reg', w2)).
Proof.
  revert reg' acc w. induction reg as [|[k src] reg IH];
    intros reg' acc w H; simpl in H.
  - inversion H; subst. reflexivity.
  - unfold bind at 1 in H.
    destruct (ReleaseSource.get_url E plain_version system architecture
                (src, w)) as [[url|e] [src1 w1]] eqn:Hurl; [|discriminate].
    simpl in H.
    destruct (SourceRegistry.for_values_of _ reg (acc ++ [url]) w1)
      as [[r2|e] [reg2 w3]] eqn:Hrest; simpl in H; inversion H; subst.
    simpl. unfold bind at 1.
    rewrite (get_url_again E _ _ _ _ _ _ _ w2 _ Hurl). simpl.
    rewrite (IH _ _ _ Hrest). reflexivity.
Qed.

(** Once [get_urls] has returned, it returns the same list from the
    registry it left, in any state of the network, and changes nothing. *)
Lemma get_urls_settled (st st' : SourceRegistry.t * world)
    (url_list : list string) (w2 : world) :
  SourceRegistry.get_urls E plain_version system architecture st
  = (Ok url_list, st') ->
  SourceRegistry.get_urls E plain_version system architecture (fst st', w2)
  = (Ok url_list, (fst st', w2)).
Proof.
  destruct st as [self w]. intros Hrun.
  rewrite get_urls_unfold in Hrun.
  destruct (best_url_of_each _ _ _ _ _ w) as [[best|e] [reg' w']] eqn:Hbest;
    [|discriminate].
  set (self1 := {| SourceRegistry.configfile := SourceRegistry.configfile self;
                   SourceRegistry.timeout := SourceRegistry.timeout self;
                   SourceRegistry.registry := reg' |}) in *.
  assert (Hcached : Forall (fun kv => ReleaseSource._latencies (snd kv) <> [])
                      (SourceRegistry.registry self1)).
  { simpl. unfold best_url_of_each in Hbest.
    eapply (for_values_of_each _
              (fun src => ReleaseSource._latencies src <> []));
      [|exact Hbest].
    intros acc0 src w0 acc1 src' w3. unfold bind at 1.
    destruct (ReleaseSource.get_url E plain_version system architecture
                (src, w0)) as [[url|e] [src2 w4]] eqn:Hurl; [|discriminate].
    intros Hret. inversion Hret; subst.
    eapply get_url_fills_cache. exact Hurl. }
  destruct (registry_latencies_of_cached E _ Hcached) as [records Hrec].
  unfold list_sort, bind at 1 in Hrun.
  destruct (list_comprehension _ best (self1, w')) as [[keys|e] s2]
    eqn:Hkeys; [|discriminate].
  apply list_comprehension_fixed in Hkeys.
  2:{ intros url _. unfold bind. rewrite Hrec. unfold getitem.
      destruct (Dict.get _ _); reflexivity. }
  destruct Hkeys as [-> Hkeys]. inversion Hrun; subst. clear Hrun.
  simpl fst. rewrite get_urls_unfold. unfold best_url_of_each in *.
  change (SourceRegistry.registry self1) with reg'.
  rewrite (best_url_of_each_again _ _ _ _ _ _ w2 Hbest).
  fold self1. unfold list_sort, bind at 1.
  rewrite (list_comprehension_of_Forall2 _ best keys (self1, w2)).
  - reflexivity.
  - eapply Forall2_impl; [|exact Hkeys]. intros url k. unfold bind.
    rewrite !Hrec. unfold getitem.
    destruct (Dict.get _ _); intros Hk; inversion Hk; reflexivity.
Qed.

(** X13: [get_urls] measures once.  A call of [get_urls] with the same
    request after one that returned, on the registry as that one left it,
    returns the same list and changes nothing, whatever calls were made in
    between: no call is made on the network. *)
Theorem get_urls_again (st st' : SourceRegistry.t * world)
    (url_list : list string) (w2 : world) :
  SourceRegistry.get_urls E plain_version system architecture st
  = (Ok url_list, st') ->
  SourceRegistry.get_urls E plain_version system architecture st'
  = (Ok url_list, st')
  /\ SourceRegistry.get_urls E plain_version system architecture
       (fst st', w2)
     = (Ok url_list, (fst st', w2)).
Proof.
  intros H. split.
  - pose proof (get_urls_settled _ _ _ (snd st') H) as Hagain.
    destruct st'. exact Hagain.
  - apply (get_urls_settled _ _ _ w2 H).
Qed.

End Again.

(** ** The requests of a resolution *)

Lemma length_passes (url_list : list string) (max_try : Z) :
  length (passes url_list max_try) = Z.to_nat max_try * length url_list.
Proof.
  unfold passes, chain_from_iterable, repeat.
  induction (Z.to_nat max_try) as [|n IH]; [reflexivity|].
  change (List.repeat url_list (S n)) with (url_list :: List.repeat url_list n).
  rewrite concat_cons, length_app, IH. lia.
Qed.

Section ResolutionRequests.
Variable E : externals.
Variables version system arch : string.
Variable max_try : Z.
Variable timeout : Q.

Lemma checks_heads (urls : list string) (s s' : SourceRegistry.t * world)
    (r : result (option string)) :
  first_such_that (check E timeout) urls s = (r, s') ->
  exists heads,
    s' = (fst s, heads ++ snd s)
    /\ Forall (is_head_call timeout) heads
    /\ length heads <= length urls * recursion_limit E.
Proof.
  revert s. induction urls as [|url urls IH]; intros s H; simpl in H.
  - inversion H; subst. exists []. destruct s'. repeat split; auto.
  - unfold bind, check, on_snd in H.
    destruct (is_url_available E (recursion_limit E) url timeout (snd s))
      as [b w1] eqn:Hcheck.
    destruct (is_url_available_heads _ _ _ _ _ _ _ Hcheck)
      as (heads1 & -> & Hlen1 & _ & Hall1).
    assert (Hone : forall r0, (r0, (fst s, heads1 ++ snd s)) = (r, s') ->
              exists heads,
                s' = (fst s, heads ++ snd s)
                /\ Forall (is_head_call timeout) heads
                /\ length heads <= length (url :: urls) * recursion_limit E).
    { intros r0 H0. inversion H0; subst. exists heads1. simpl.
      repeat split; auto. lia. }
    destruct b as [[|]|e]; eauto.
    destruct (IH _ H) as (heads & -> & Hall & Hlen). simpl.
    exists (heads ++ heads1). rewrite <- app_assoc, length_app.
    repeat split; [apply Forall_app; split; auto | simpl; lia].
Qed.

(** X14: after the list of [get_urls], a resolution only adds calls of
    [requests.head] with its timeout, and at most [max_try] times the length
    of the list times the frames granted to a check; a [max_try] below zero
    counts as zero. *)
Theorem resolution_requests (st st1 st2 : SourceRegistry.t * world)
    (url_list : list string) (r : result (option string)) :
  SourceRegistry.get_urls E version system arch st = (Ok url_list, st1) ->
  query_download_url E version system arch max_try timeout st = (r, st2) ->
  exists heads,
    snd st2 = heads ++ snd st1
    /\ Forall (is_head_call timeout) heads
    /\ length heads
       <= Z.to_nat max_try * length url_list * recursion_limit E.
Proof.
  intros Hget Hrun.
  rewrite (query_download_url_after_get_urls _ _ _ _ _ _ _ _ _ Hget) in Hrun.
  destruct (checks_heads _ _ _ _ Hrun) as (heads & -> & Hall & Hlen).
  exists heads. rewrite length_passes in Hlen. repeat split; auto.
Qed.

(** X15: once [get_urls] has returned for a request, a resolution of the
    same request on the registry it left measures nothing: whatever the
    bound on the passes and the network then, it leaves the registry as it
    is and only adds calls of [requests.head]. *)
Theorem later_resolution_only_checks (st st1 st3 : SourceRegistry.t * world)
    (url_list : list string) (w2 : world) (r : result (option string)) :
  SourceRegistry.get_urls E version system arch st = (Ok url_list, st1) ->
  query_download_url E version system arch max_try timeout (fst st1, w2)
  = (r, st3) ->
  exists heads,
    st3 = (fst st1, heads ++ w2)
    /\ Forall (is_head_call timeout) heads
    /\ length heads
       <= Z.to_nat max_try * length url_list * recursion_limit E.
Proof.
  intros Hget Hrun.
  pose proof (get_urls_settled _ _ _ _ _ _ _ w2 Hget) as Hagain.
  rewrite (query_download_url_after_get_urls _ _ _ _ _ _ _ _ _ Hagain)
    in Hrun.
  destruct (checks_heads _ _ _ _ Hrun) as (heads & -> & Hall & Hlen).
  exists heads. rewrite length_passes in Hlen. repeat split; auto.
Qed.

End ResolutionRequests.

(** ** The first candidate *)

Section FirstCandidate.
Variable E : externals.
Variables plain_version system architecture : string.

(** What a run of [get_urls] that returns has gone through. *)
Lemma get_urls_run (self : SourceRegistry.t) (w : world)
    (st' : SourceRegistry.t * world) (url_list : list string) :
  SourceRegistry.get_urls E plain_version system architecture (self, w)
  = (Ok url_list, st') ->
  exists best keys records,
    best_url_of_each E plain_version system architecture
      (SourceRegistry.registry self) w
    = (Ok best, (SourceRegistry.registry (fst st'), snd st'))
    /\ SourceRegistry.latencies E st' = (Ok records, st')
    /\ Forall2 (fun url k => latency_of E records url = Some k) best keys
    /\ url_list = map snd (sort_keyed latency_lt (combine keys best)).
Proof.
  intros H. rewrite get_urls_unfold in H.
  destruct (best_url_of_each _ _ _ _ _ w) as [[best|e] [reg' w']] eqn:Hbest;
    [|discriminate].
  set (self1 := {| SourceRegistry.configfile := SourceRegistry.configfile self;
                   SourceRegistry.timeout := SourceRegistry.timeout self;
                   SourceRegistry.registry := reg' |}) in *.
  assert (Hcached : Forall (fun kv => ReleaseSource._latencies (snd kv) <> [])
                      (SourceRegistry.registry self1)).
  { simpl. unfold best_url_of_each in Hbest.
    eapply (for_values_of_each _
              (fun src => ReleaseSource._latencies src <> []));
      [|exact Hbest].
    intros acc0 src w0 acc1 src' w2. unfold bind at 1.
    destruct (ReleaseSource.get_url E plain_version system architecture
                (src, w0)) as [[url|e] [src2 w3]] eqn:Hurl; [|discriminate].
    intros Hret. inversion Hret; subst.
    eapply get_url_fills_cache. exact Hurl. }
  destruct (registry_latencies_of_cached E _ Hcached) as [records Hrec].
  unfold list_sort, bind at 1 in H.
  destruct (list_comprehension _ best (self1, w')) as [[keys|e] s2] eqn:Hkeys;
    [|discriminate].
  apply list_comprehension_fixed in Hkeys.
  2:{ intros url _. unfold bind. rewrite Hrec. unfold getitem.
      destruct (Dict.get _ _); reflexivity. }
  destruct Hkeys as [-> Hkeys]. inversion H; subst. clear H.
  exists best, keys, records. repeat split; auto.
  eapply Forall2_impl; [|exact Hkeys]. intros url k. unfold bind.
  rewrite Hrec. unfold getitem, latency_of.
  destruct (Dict.get _ _) as [l|]; [|discriminate].
  intros Hk. inversion Hk. reflexivity.
Qed.

(** X16: the candidate that [get_urls] puts first is the first of the
    least ones: among the best urls of the mirrors, in the order of the
    registry, every url before it has a host with a strictly greater
    latency in the merged view, and every url after it a host with a
    latency that is not smaller.  Mirrors of equal latency keep the order
    of the registry. *)
Theorem first_candidate_first_of_least (self : SourceRegistry.t) (w : world)
    (st' : SourceRegistry.t * world) (url : string) (others : list string) :
  SourceRegistry.get_urls E plain_version system architecture (self, w)
  = (Ok (url :: others), st') ->
  exists best pre post records l,
    best_url_of_each E plain_version system architecture
      (SourceRegistry.registry self) w
    = (Ok best, (SourceRegistry.registry (fst st'), snd st'))
    /\ best = pre ++ url :: post
    /\ SourceRegistry.latencies E st' = (Ok records, st')
    /\ latency_of E records url = Some l
    /\ Forall
         (fun u =>
            exists lu, latency_of E records u = Some lu
                       /\ latency_lt l lu = true) pre
    /\ Forall
         (fun u =>
            exists lu, latency_of E records u = Some lu /\ latency_le l lu)
         post.
Proof.
  intros Hrun.
  destruct (get_urls_run _ _ _ _ Hrun)
    as (best & keys & records & Hbest & Hrec & Hkeys & Hsorted).
  assert (Hlen : length keys = length best)
    by (symmetry; eapply Forall2_length; exact Hkeys).
  destruct (sort_keyed latency_lt (combine keys best)) as [|h t] eqn:Hs;
    [discriminate|].
  simpl in Hsorted. inversion Hsorted as [[Hh Ht]]. clear Hsorted.
  destruct (sort_keyed_head _ _ _ Hs) as (ppre & ppost & Hsplit & Hpre & Hpost).
  pose proof (Forall2_combine_keys E _ _ _ Hkeys) as Hpairs.
  rewrite Hsplit in Hpairs. apply Forall_app in Hpairs.
  destruct Hpairs as [Hppre Hppost].
  inversion Hppost as [|? ? Hhk Hppost']; subst.
  exists best, (map snd ppre), (map snd ppost), records, (fst h).
  repeat split; auto.
  - rewrite <- (map_snd_combine keys best Hlen), Hsplit, map_app.
    reflexivity.
  - rewrite Forall_map. rewrite Forall_forall in *. intros p Hp.
    exists (fst p). split; auto.
  - rewrite Forall_map. rewrite Forall_forall in *. intros q Hq.
    exists (fst q). split; auto.
Qed.

End FirstCandidate.

(** * The further properties on concrete mirrors *)

Lemma is_url_available_requests_witness :
  let w' := snd (is_url_available redirecting 1000 near_url probe_timeout [])
  in
  is_url_available redirecting 1000 near_url probe_timeout [] = (Ok true, w')
  /\ exists heads,
       w' = heads ++ []
       /\ length heads <= 1000
       /\ (0 < 1000 -> 0 < length heads)
       /\ Forall (is_head_call probe_timeout) heads.
Proof.
  intros w'.
  assert (H : is_url_available redirecting 1000 near_url probe_timeout []
              = (Ok true, w')) by (vm_compute; reflexivity).
  split; [exact H|].
  exact (is_url_available_requests redirecting probe_timeout 1000 near_url
           [] w' (Ok true) H).
Defined.

Lemma redirect_loop_raises_witness :
  (forall url w,
      url = near_url ->
      exists r target,
        requests_head_answer looping w url probe_timeout = Responded r
        /\ redirects_to r target
        /\ target = near_url)
  /\ exists heads,
       is_url_available looping 5 near_url probe_timeout []
       = (Raise RecursionError, heads ++ [])
       /\ length heads = 5.
Proof.
  assert (Hloop : forall url w,
             url = near_url ->
             exists r target,
               requests_head_answer looping w url probe_timeout = Responded r
               /\ redirects_to r target
               /\ target = near_url).
  { intros url w ->. exists (answer 301 [("Location", near_url)]), near_url.
    split; [reflexivity|]. split; [|reflexivity].
    split; [left; reflexivity | reflexivity]. }
  split; [exact Hloop|].
  exact (redirect_loop_raises looping probe_timeout (fun url => url = near_url)
           Hloop 5 near_url [] eq_refl).
Defined.

Lemma no_pass_returns_none_witness :
  let st1 := snd (SourceRegistry.get_urls silent release os cpu two_mirrors) in
  SourceRegistry.get_urls silent release os cpu two_mirrors
  = (Ok [near_url; far_url], st1)
  /\ ((0 <= 0)%Z \/ [near_url; far_url] = [])
  /\ query_download_url silent release os cpu 0 probe_timeout two_mirrors
     = (Ok None, st1)
  /\ query_download_url_counted silent release os cpu 0 probe_timeout
       (two_mirrors, [])
     = (Ok None, (st1, [])).
Proof.
  intros st1.
  assert (Hget : SourceRegistry.get_urls silent release os cpu two_mirrors
                 = (Ok [near_url; far_url], st1))
    by (vm_compute; reflexivity).
  assert (Hnone : (0 <= 0)%Z \/ [near_url; far_url] = []) by (left; lia).
  split; [exact Hget|]. split; [exact Hnone|].
  exact (no_pass_returns_none silent release os cpu 0 probe_timeout
           two_mirrors st1 [near_url; far_url] Hget Hnone).
Defined.

Lemma raising_check_ends_resolution_witness :
  let st1 := snd (SourceRegistry.get_urls bare_redirect release os cpu
                    two_mirrors) in
  let st2 := snd (check bare_redirect probe_timeout near_url st1) in
  let post := [far_url; near_url; far_url; near_url; far_url] in
  SourceRegistry.get_urls bare_redirect release os cpu two_mirrors
  = (Ok [near_url; far_url], st1)
  /\ passes [near_url; far_url] 3 = [] ++ near_url :: post
  /\ Forall (eq (Ok false))
       (check_each (check bare_redirect probe_timeout) [] st1)
  /\ check bare_redirect probe_timeout near_url
       (state_after (check bare_redirect probe_timeout) [] st1)
     = (Raise (KeyError "Location"), st2)
  /\ query_download_url bare_redirect release os cpu 3 probe_timeout
       two_mirrors
     = (Raise (KeyError "Location"), st2).
Proof.
  intros st1 st2 post.
  assert (Hget : SourceRegistry.get_urls bare_redirect release os cpu
                   two_mirrors = (Ok [near_url; far_url], st1))
    by (vm_compute; reflexivity).
  assert (Hsplit : passes [near_url; far_url] 3 = [] ++ near_url :: post)
    by reflexivity.
  assert (Hpre : Forall (eq (Ok false))
                   (check_each (check bare_redirect probe_timeout) [] st1))
    by constructor.
  assert (Hurl : check bare_redirect probe_timeout near_url
                   (state_after (check bare_redirect probe_timeout) [] st1)
                 = (Raise (KeyError "Location"), st2))
    by (vm_compute; reflexivity).
  split; [exact Hget|]. split; [exact Hsplit|]. split; [exact Hpre|].
  split; [exact Hurl|].
  exact (raising_check_ends_resolution bare_redirect release os cpu 3
           probe_timeout two_mirrors st1 st2 [near_url; far_url] [] post
           near_url (KeyError "Location") Hget Hsplit Hpre Hurl).
Defined.

Lemma template_error_ends_resolution_witness :
  let near' := fst (snd (best_url_of_each silent release os cpu
                           [("near", near)] [])) in
  let w1 := snd (snd (best_url_of_each silent release os cpu
                        [("near", near)] [])) in
  let t := {| template :=
                "https://broken.example/$sys/$arch/$build/julia-$version.tar.gz"
           |} in
  SourceRegistry.registry (fst three_mirrors)
  = [("near", near)] ++ ("broken", broken) :: [("far", far)]
  /\ best_url_of_each silent release os cpu [("near", near)] []
     = (Ok [near_url], (near', w1))
  /\ selected_templates broken release = [] ++ t :: []
  /\ substitute silent t (generate_info silent release os cpu)
     = Raise (KeyError "build")
  /\ exists self',
       query_download_url silent release os cpu 3 probe_timeout
         (fst three_mirrors, [])
       = (Raise (KeyError "build"), (self', w1))
       /\ query_download_url_counted silent release os cpu 3 probe_timeout
            ((fst three_mirrors, []), [])
          = (Raise (KeyError "build"), ((self', w1), [])).
Proof.
  intros near' w1 t.
  assert (Hreg : SourceRegistry.registry (fst three_mirrors)
                 = [("near", near)] ++ ("broken", broken) :: [("far", far)])
    by reflexivity.
  assert (Hpre : best_url_of_each silent release os cpu [("near", near)] []
                 = (Ok [near_url], (near', w1)))
    by (vm_compute; reflexivity).
  assert (Hsel : selected_templates broken release = [] ++ t :: [])
    by reflexivity.
  assert (Ht : substitute silent t (generate_info silent release os cpu)
               = Raise (KeyError "build"))
    by (vm_compute; reflexivity).
  split; [exact Hreg|]. split; [exact Hpre|]. split; [exact Hsel|].
  split; [exact Ht|].
  exact (template_error_ends_resolution silent release os cpu 3 probe_timeout
           (fst three_mirrors) [] w1 [("near", near)] [("far", far)] near'
           "broken" broken [near_url] [] [] t (KeyError "build")
           Hreg Hpre Hsel (Forall_nil _) Ht).
Defined.

Lemma checks_leave_registry_witness :
  let st1 := snd (SourceRegistry.get_urls far_first release os cpu
                    two_mirrors) in
  let st2 := snd (query_download_url far_first release os cpu 3 probe_timeout
                    two_mirrors) in
  SourceRegistry.get_urls far_first release os cpu two_mirrors
  = (Ok [far_url; near_url], st1)
  /\ query_download_url far_first release os cpu 3 probe_timeout two_mirrors
     = (Ok (Some near_url), st2)
  /\ fst st2 = fst st1.
Proof.
  intros st1 st2.
  assert (Hget : SourceRegistry.get_urls far_first release os cpu two_mirrors
                 = (Ok [far_url; near_url], st1))
    by (vm_compute; reflexivity).
  assert (Hrun : query_download_url far_first release os cpu 3 probe_timeout
                   two_mirrors = (Ok (Some near_url), st2))
    by (vm_compute; reflexivity).
  split; [exact Hget|]. split; [exact Hrun|].
  exact (checks_leave_registry far_first release os cpu 3 probe_timeout
           two_mirrors st1 st2 [far_url; near_url] (Ok (Some near_url))
           Hget Hrun).
Defined.

Lemma get_urls_keeps_mirrors_witness :
  let self' := fst (snd (SourceRegistry.get_urls silent release os cpu
                           three_mirrors)) in
  let w' := snd (snd (SourceRegistry.get_urls silent release os cpu
                        three_mirrors)) in
  SourceRegistry.get_urls silent release os cpu
    (fst three_mirrors, snd three_mirrors)
  = (Raise (KeyError "build"), (self', w'))
  /\ SourceRegistry.configfile self'
     = SourceRegistry.configfile (fst three_mirrors)
  /\ SourceRegistry.timeout self' = SourceRegistry.timeout (fst three_mirrors)
  /\ same_mirrors (SourceRegistry.registry (fst three_mirrors))
       (SourceRegistry.registry self')
  /\ SourceRegistry.__len__ self' = SourceRegistry.__len__ (fst three_mirrors).
Proof.
  intros self' w'.
  assert (H : SourceRegistry.get_urls silent release os cpu
                (fst three_mirrors, snd three_mirrors)
              = (Raise (KeyError "build"), (self', w')))
    by (vm_compute; reflexivity).
  split; [exact H|].
  exact (get_urls_keeps_mirrors silent release os cpu (fst three_mirrors)
           self' (snd three_mirrors) w' (Raise (KeyError "build")) H).
Defined.

Lemma measurement_calls_witness :
  let src' := fst (snd (ReleaseSource.latencies aliased (twin, []))) in
  let w' := snd (snd (ReleaseSource.latencies aliased (twin, []))) in
  ReleaseSource._latencies twin = Dict.empty
  /\ ReleaseSource.latencies aliased (twin, [])
     = (Ok [("a.twin.example", Elapsed (7 # 1000));
            ("b.twin.example", Elapsed (7 # 1000))], (src', w'))
  /\ exists probes lookups,
       w' = probes ++ lookups ++ []
       /\ Forall is_query_ip_call lookups
       /\ length lookups = length (all_hosts aliased twin)
       /\ Forall (is_latency_call (ReleaseSource.timeout twin)) probes
       /\ NoDup (probed_addresses probes)
       /\ length probes <= length (all_hosts aliased twin).
Proof.
  intros src' w'.
  assert (Hfresh : ReleaseSource._latencies twin = Dict.empty)
    by reflexivity.
  assert (Hrun : ReleaseSource.latencies aliased (twin, [])
                 = (Ok [("a.twin.example", Elapsed (7 # 1000));
                        ("b.twin.example", Elapsed (7 # 1000))], (src', w')))
    by (vm_compute; reflexivity).
  split; [exact Hfresh|]. split; [exact Hrun|].
  exact (measurement_calls aliased twin src' [] w' _ Hfresh Hrun).
Defined.

(** On that run: two lookups, one probe. *)
Example twin_is_probed_once :
  snd (snd (ReleaseSource.latencies aliased (twin, [])))
  = [Call_port_response_time shared_address 443
       ReleaseSource.default_timeout (Elapsed (7 # 1000));
     Call_query_ip "b.twin.example" shared_address;
     Call_query_ip "a.twin.example" shared_address].
Proof. vm_compute. reflexivity. Qed.

Lemma shared_address_same_latency_witness :
  let d := [("a.twin.example", Elapsed (7 # 1000));
            ("b.twin.example", Elapsed (7 # 1000))] in
  let src' := fst (snd (ReleaseSource.latencies aliased (twin, []))) in
  let w' := snd (snd (ReleaseSource.latencies aliased (twin, []))) in
  (forall (w0 : world) (host : string),
      query_ip_answer aliased w0 host = shared_address)
  /\ ReleaseSource._latencies twin = Dict.empty
  /\ ReleaseSource.latencies aliased (twin, []) = (Ok d, (src', w'))
  /\ In "a.twin.example" (all_hosts aliased twin)
  /\ In "b.twin.example" (all_hosts aliased twin)
  /\ Dict.get "a.twin.example" d = Dict.get "b.twin.example" d.
Proof.
  intros d src' w'.
  assert (Hstatic : forall (w0 : world) (host : string),
             query_ip_answer aliased w0 host = shared_address)
    by (intros; reflexivity).
  assert (Hfresh : ReleaseSource._latencies twin = Dict.empty)
    by reflexivity.
  assert (Hrun : ReleaseSource.latencies aliased (twin, [])
                 = (Ok d, (src', w')))
    by (vm_compute; reflexivity).
  assert (Ha : In "a.twin.example" (all_hosts aliased twin))
    by (vm_compute; left; reflexivity).
  assert (Hb : In "b.twin.example" (all_hosts aliased twin))
    by (vm_compute; right; left; reflexivity).
  split; [exact Hstatic|]. split; [exact Hfresh|]. split; [exact Hrun|].
  split; [exact Ha|]. split; [exact Hb|].
  exact (shared_address_same_latency aliased (fun _ => shared_address)
           twin src' [] w' d "a.twin.example" "b.twin.example"
           Hstatic Hfresh Hrun Ha Hb eq_refl).
Defined.

Lemma unknown_scheme_raises_witness :
  ReleaseSource._latencies exotic = Dict.empty
  /\ ReleaseSource.urls exotic ++ ReleaseSource.latest_urls exotic
     = [exotic_https] ++ exotic_sftp :: []
  /\ Forall
       (fun u =>
          Dict.get (scheme (urlparse silent u)) (default_scheme_ports silent)
          <> None)
       [exotic_https]
  /\ Dict.get (scheme (urlparse silent exotic_sftp))
       (default_scheme_ports silent) = None
  /\ exists lookups,
       ReleaseSource.latencies silent (exotic, [])
       = (Raise (KeyError (scheme (urlparse silent exotic_sftp))),
          (exotic, lookups ++ []))
       /\ Forall is_query_ip_call lookups
       /\ length lookups = length (all_hosts silent exotic).
Proof.
  assert (Hfresh : ReleaseSource._latencies exotic = Dict.empty)
    by reflexivity.
  assert (Hsplit : ReleaseSource.urls exotic ++ ReleaseSource.latest_urls exotic
                   = [exotic_https] ++ exotic_sftp :: [])
    by reflexivity.
  assert (Hpre : Forall
                   (fun u =>
                      Dict.get (scheme (urlparse silent u))
                        (default_scheme_ports silent) <> None)
                   [exotic_https])
    by (constructor; [vm_compute; discriminate | constructor]).
  assert (Hurl : Dict.get (scheme (urlparse silent exotic_sftp))
                   (default_scheme_ports silent) = None)
    by (vm_compute; reflexivity).
  split; [exact Hfresh|]. split; [exact Hsplit|]. split; [exact Hpre|].
  split; [exact Hurl|].
  exact (unknown_scheme_raises silent exotic [] [exotic_https] []
           exotic_sftp Hfresh Hsplit Hpre Hurl).
Defined.

Lemma merged_view_covers_caches_witness :
  let records := [("far.example", Elapsed (10 # 1000));
                  ("near.example", Elapsed (5 # 1000))] in
  let self' := fst (snd (SourceRegistry.latencies silent two_mirrors)) in
  let w' := snd (snd (SourceRegistry.latencies silent two_mirrors)) in
  let near' :=
    ReleaseSource.with_latencies near [("near.example", Elapsed (5 # 1000))]
  in
  SourceRegistry.latencies silent (fst two_mirrors, snd two_mirrors)
  = (Ok records, (self', w'))
  /\ In ("near", near') (SourceRegistry.registry self')
  /\ Dict.get "near.example" (ReleaseSource._latencies near') <> None
  /\ Dict.get "near.example" records <> None.
Proof.
  intros records self' w' near'.
  assert (Hrun : SourceRegistry.latencies silent
                   (fst two_mirrors, snd two_mirrors)
                 = (Ok records, (self', w')))
    by (vm_compute; reflexivity).
  assert (Hin : In ("near", near') (SourceRegistry.registry self'))
    by (vm_compute; right; left; reflexivity).
  assert (Hhost : Dict.get "near.example" (ReleaseSource._latencies near')
                  <> None)
    by (vm_compute; discriminate).
  split; [exact Hrun|]. split; [exact Hin|]. split; [exact Hhost|].
  exact (merged_view_covers_caches silent (fst two_mirrors) self'
           (snd two_mirrors) w' records "near" "near.example" near'
           Hrun Hin Hhost).
Defined.

Lemma get_url_first_of_least_witness :
  let src' := fst (snd (ReleaseSource.get_url aliased release os cpu
                          (twin, []))) in
  let w' := snd (snd (ReleaseSource.get_url aliased release os cpu
                        (twin, []))) in
  ReleaseSource.get_url aliased release os cpu (twin, [])
  = (Ok twin_a_url, (src', w'))
  /\ exists urls pre post l,
       list_comprehension (substituted aliased release os cpu)
         (selected_templates twin release) (twin, [])
       = (Ok urls, (twin, []))
       /\ urls = pre ++ twin_a_url :: post
       /\ latency_of aliased (ReleaseSource._latencies src') twin_a_url
          = Some l
       /\ Forall
            (fun u =>
               exists lu,
                 latency_of aliased (ReleaseSource._latencies src') u
                 = Some lu
                 /\ latency_lt l lu = true) pre
       /\ Forall
            (fun u =>
               exists lu,
                 latency_of aliased (ReleaseSource._latencies src') u
                 = Some lu
                 /\ latency_le l lu) post.
Proof.
  intros src' w'.
  assert (Hrun : ReleaseSource.get_url aliased release os cpu (twin, [])
                 = (Ok twin_a_url, (src', w')))
    by (vm_compute; reflexivity).
  split; [exact Hrun|].
  exact (get_url_first_of_least aliased release os cpu twin src' [] w'
           twin_a_url Hrun).
Defined.

Lemma get_urls_again_witness :
  let st' := snd (SourceRegistry.get_urls redirecting release os cpu
                    two_mirrors) in
  SourceRegistry.get_urls redirecting release os cpu two_mirrors
  = (Ok [near_url; far_url], st')
  /\ SourceRegistry.get_urls redirecting release os cpu st'
     = (Ok [near_url; far_url], st')
  /\ SourceRegistry.get_urls redirecting release os cpu (fst st', [])
     = (Ok [near_url; far_url], (fst st', [])).
Proof.
  intros st'.
  assert (Hrun : SourceRegistry.get_urls redirecting release os cpu
                   two_mirrors = (Ok [near_url; far_url], st'))
    by (vm_compute; reflexivity).
  split; [exact Hrun|].
  exact (get_urls_again redirecting release os cpu two_mirrors st'
           [near_url; far_url] [] Hrun).
Defined.

Lemma resolution_requests_witness :
  let st1 := snd (SourceRegistry.get_urls far_first release os cpu
                    two_mirrors) in
  let st2 := snd (query_download_url far_first release os cpu 3 probe_timeout
                    two_mirrors) in
  SourceRegistry.get_urls far_first release os cpu two_mirrors
  = (Ok [far_url; near_url], st1)
  /\ query_download_url far_first release os cpu 3 probe_timeout two_mirrors
     = (Ok (Some near_url), st2)
  /\ exists heads,
       snd st2 = heads ++ snd st1
       /\ Forall (is_head_call probe_timeout) heads
       /\ length heads
          <= Z.to_nat 3 * length [far_url; near_url]
             * recursion_limit far_first.
Proof.
  intros st1 st2.
  assert (Hget : SourceRegistry.get_urls far_first release os cpu two_mirrors
                 = (Ok [far_url; near_url], st1))
    by (vm_compute; reflexivity).
  assert (Hrun : query_download_url far_first release os cpu 3 probe_timeout
                   two_mirrors = (Ok (Some near_url), st2))
    by (vm_compute; reflexivity).
  split; [exact Hget|]. split; [exact Hrun|].
  exact (resolution_requests far_first release os cpu 3 probe_timeout
           two_mirrors st1 st2 [far_url; near_url] (Ok (Some near_url))
           Hget Hrun).
Defined.

Lemma later_resolution_only_checks_witness :
  let st1 := snd (SourceRegistry.get_urls far_first release os cpu
                    two_mirrors) in
  let st3 := snd (query_download_url far_first release os cpu 3 probe_timeout
                    (fst st1, [])) in
  SourceRegistry.get_urls far_first release os cpu two_mirrors
  = (Ok [far_url; near_url], st1)
  /\ query_download_url far_first release os cpu 3 probe_timeout
       (fst st1, [])
     = (Ok (Some near_url), st3)
  /\ exists heads,
       st3 = (fst st1, heads ++ [])
       /\ Forall (is_head_call probe_timeout) heads
       /\ length heads
          <= Z.to_nat 3 * length [far_url; near_url]
             * recursion_limit far_first.
Proof.
  intros st1 st3.
  assert (Hget : SourceRegistry.get_urls far_first release os cpu two_mirrors
                 = (Ok [far_url; near_url], st1))
    by (vm_compute; reflexivity).
  assert (Hrun : query_download_url far_first release os cpu 3 probe_timeout
                   (fst st1, []) = (Ok (Some near_url), st3))
    by (vm_compute; reflexivity).
  split; [exact Hget|]. split; [exact Hrun|].
  exact (later_resolution_only_checks far_first release os cpu 3
           probe_timeout two_mirrors st1 st3 [far_url; near_url] []
           (Ok (Some near_url)) Hget Hrun).
Defined.

Lemma first_candidate_first_of_least_witness :
  let st' := snd (SourceRegistry.get_urls redirecting release os cpu
                    two_mirrors) in
  SourceRegistry.get_urls redirecting release os cpu
    (fst two_mirrors, snd two_mirrors)
  = (Ok (near_url :: [far_url]), st')
  /\ exists best pre post records l,
       best_url_of_each redirecting release os cpu
         (SourceRegistry.registry (fst two_mirrors)) (snd two_mirrors)
       = (Ok best, (SourceRegistry.registry (fst st'), snd st'))
       /\ best = pre ++ near_url :: post
       /\ SourceRegistry.latencies redirecting st' = (Ok records, st')
       /\ latency_of redirecting records near_url = Some l
       /\ Forall
            (fun u =>
               exists lu, latency_of redirecting records u = Some lu
                          /\ latency_lt l lu = true) pre
       /\ Forall
            (fun u =>
               exists lu, latency_of redirecting records u = Some lu
                          /\ latency_le l lu) post.
Proof.
  intros st'.
  assert (Hrun : SourceRegistry.get_urls redirecting release os cpu
                   (fst two_mirrors, snd two_mirrors)
                 = (Ok (near_url :: [far_url]), st'))
    by (vm_compute; reflexivity).
  split; [exact Hrun|].
  exact (first_candidate_first_of_least redirecting release os cpu
           (fst two_mirrors) (snd two_mirrors) st' near_url [far_url] Hrun).
Defined.
